(** * govip: leadership-driven ownership of a virtual IP address

    A shallow embedding of [main.go].  The program is a thin layer over
    three external libraries (netlink, arping, the etcd client); they are
    taken as an interface ([External]) over an abstract [World], and the
    Go functions [hasIP], [releaseIP], [ensureIP] and [main] (with its two
    goroutines) are written over that interface.  Every external call and
    every log line is recorded in a trace, so that "what the program did"
    can be stated both on the resulting world and on the calls it made. *)

From Stdlib Require Import String Ascii ZArith List Bool Lia DecimalString.
Import ListNotations.
Open Scope string_scope.

(** ** Plain data *)

(** A Go [error] value.  [context.Canceled] is the one error the program
    compares against; every other error is only logged. *)
Inductive error : Type :=
| context_Canceled
| Err (msg : string).

Definition Error (e : error) : string :=
  match e with
  | context_Canceled => "context canceled"
  | Err msg => msg
  end.

Definition is_Canceled (e : error) : bool :=
  match e with context_Canceled => true | Err _ => false end.

(** logrus levels used by the program. *)
Inductive Level : Type := DebugLevel | InfoLevel | FatalLevel.

(** The two signals registered with [signal.Notify]. *)
Inductive Signal : Type := SIGINT | SIGTERM.

Definition Signal_String (s : Signal) : string :=
  match s with SIGINT => "interrupt" | SIGTERM => "terminated" end.

Inductive Family : Type := FAMILY_ALL.

(** The package-level flag variables, after [flag.Parse]. *)
Record Flags : Type := {
  version : bool;
  prefix : string;
  member : string;
  vip : string;
  vif : string;
  etcdaddress : string;
  cafile : string;
  certfile : string;
  keyfile : string
}.

Definition Version : string := "Not defined".

Definition default_flags : Flags := {|
  version := false;
  prefix := "/govip/";
  member := "hostname";
  vip := "192.168.0.254/32";
  vif := "eth0";
  etcdaddress := "https://127.0.0.1:2379";
  cafile := "ca.crt";
  certfile := "server.crt";
  keyfile := "server.key"
|}.

(** [transport.TLSInfo] as filled in by [main]. *)
Record TLSInfo : Type := {
  CertFile : string;
  KeyFile : string;
  TrustedCAFile : string
}.

Definition string_of_Z (z : Z) : string := NilZero.string_of_int (Z.to_int z).

(** [strings.Split(s, sep)] for a one-character separator. *)
Fixpoint split_acc (sep : ascii) (s : string) (cur : string) : list string :=
  match s with
  | EmptyString => [cur]
  | String c rest =>
      if Ascii.eqb c sep then cur :: split_acc sep rest ""
      else split_acc sep rest (cur ++ String c "")
  end.

Definition strings_Split (s : string) (sep : ascii) : list string :=
  split_acc sep s "".




(** ** The external collaborators

    Everything the program reaches through a library call.  Reads of the
    OS network configuration return a result and leave the world as it is;
    mutations and network traffic return a new world.  A blocking call
    ([Campaign]) answers [None] in a world in which it does not return
    yet. *)
Class External : Type := {
  World : Type;
  Addr : Type;
  Link : Type;
  IP : Type;
  TLSConfig : Type;
  Client : Type;
  Session : Type;
  Election : Type;
  (* github.com/vishvananda/netlink *)
  netlink_ParseAddr : string -> error + Addr;
  Addr_Equal : Addr -> Addr -> bool;
  Addr_IP : Addr -> IP;
  netlink_LinkByName : string -> World -> error + Link;
  netlink_AddrList : Link -> Family -> World -> error + list Addr;
  netlink_AddrAdd : Link -> Addr -> World -> option error * World;
  netlink_AddrDel : Link -> Addr -> World -> option error * World;
  (* github.com/j-keck/arping *)
  arping_GratuitousArpOverIfaceByName :
    IP -> string -> World -> option error * World;
  (* time *)
  time_passes : Z -> World -> World;
  (* etcd: pkg/transport, clientv3, clientv3/concurrency *)
  TLSInfo_ClientConfig : TLSInfo -> World -> error + TLSConfig;
  client_New : list string -> Z -> TLSConfig -> World -> (error + Client) * World;
  Client_Close : Client -> World -> World;
  concurrency_NewSession : Client -> World -> (error + Session) * World;
  Session_Close : Session -> World -> World;
  concurrency_NewElection : Session -> string -> Election;
  Election_Campaign :
    Election -> bool -> string -> World -> option (option error * World);
  (* whatever else changes the world: an administrator, other hosts *)
  Interference : Type;
  interfere : Interference -> World -> World
}.

Section Program.

Context {X : External}.

(** ** Traces *)

(** The calls the program makes to the outside. *)
Inductive Call : Type :=
| call_ParseAddr (s : string)
| call_LinkByName (name : string)
| call_AddrList (l : Link) (f : Family)
| call_AddrAdd (l : Link) (a : Addr)
| call_AddrDel (l : Link) (a : Addr)
| call_GratuitousArp (ip : IP) (iface : string)
| call_Sleep (ms : Z)
| call_After (ms : Z)
| call_ClientConfig (i : TLSInfo)
| call_client_New (endpoints : list string) (dialTimeout : Z)
| call_Client_Close
| call_NewSession
| call_Session_Close
| call_NewElection (pfx : string)
| call_Campaign (val : string)
| call_signal_Notify (sigs : list Signal).

Inductive Event : Type :=
| Log (lvl : Level) (msg : string)
| Println (s : string)
| Ext (c : Call)
| Cancel                       (* cancel() of the shared context *)
| CloseQuit                    (* close(quit) *)
| SendExit (code : Z)          (* exit <- code, received by main *)
| OsExit (code : Z).           (* os.Exit(code), also through log.Fatal *)

(** ** Sequential code: a state-and-trace monad over the world *)

Record Out (A : Type) : Type := mkOut {
  val : A;
  post : World;
  emitted : list Event
}.
Arguments mkOut {A} _ _ _.
Arguments val {A} _.
Arguments post {A} _.
Arguments emitted {A} _.

Definition IO (A : Type) : Type := World -> Out A.

Definition ret {A} (a : A) : IO A := fun w => mkOut a w [].

Definition bind {A B} (m : IO A) (k : A -> IO B) : IO B :=
  fun w =>
    let r := m w in
    let r' := k (val r) (post r) in
    mkOut (val r') (post r') (emitted r ++ emitted r').

Notation "x <- m ;; k" := (bind m (fun x => k))
  (at level 61, m at next level, right associativity).
Notation "m ;; k" := (bind m (fun _ => k))
  (at level 61, right associativity).

Definition emit (e : Event) : IO unit := fun w => mkOut tt w [e].

(** A read: the world answers and stays as it is. *)
Definition ask {A} (c : Call) (f : World -> A) : IO A :=
  fun w => mkOut (f w) w [Ext c].

(** A call that acts on the world. *)
Definition act {A} (c : Call) (f : World -> A * World) : IO A :=
  fun w => mkOut (fst (f w)) (snd (f w)) [Ext c].

Definition log_Debug (msg : string) : IO unit := emit (Log DebugLevel msg).
Definition log_Info (msg : string) : IO unit := emit (Log InfoLevel msg).

Definition ParseAddr (s : string) : IO (error + Addr) :=
  ask (call_ParseAddr s) (fun _ => netlink_ParseAddr s).
Definition LinkByName (name : string) : IO (error + Link) :=
  ask (call_LinkByName name) (netlink_LinkByName name).
Definition AddrList (l : Link) (f : Family) : IO (error + list Addr) :=
  ask (call_AddrList l f) (netlink_AddrList l f).
Definition AddrAdd (l : Link) (a : Addr) : IO (option error) :=
  act (call_AddrAdd l a) (netlink_AddrAdd l a).
Definition AddrDel (l : Link) (a : Addr) : IO (option error) :=
  act (call_AddrDel l a) (netlink_AddrDel l a).
Definition GratuitousArpOverIfaceByName (ip : IP) (iface : string)
  : IO (option error) :=
  act (call_GratuitousArp ip iface)
      (arping_GratuitousArpOverIfaceByName ip iface).
Definition Sleep (ms : Z) : IO unit :=
  act (call_Sleep ms) (fun w => (tt, time_passes ms w)).

Definition Second : Z := 1000.

Variable flags : Flags.

(** ** IP state manager *)

(** The [for _, addr := range addrs] loop of [hasIP]: [true] at the
    first entry equal to [vaddr]. *)
Fixpoint range_addrs (vaddr : Addr) (addrs : list Addr) : bool :=
  match addrs with
  | [] => false
  | addr :: rest =>
      if Addr_Equal vaddr addr then true else range_addrs vaddr rest
  end.

(** [hasIP() (bool, *netlink.Addr, netlink.Link, error)].  The Go
    function returns nil handles exactly when it returns an error, so the
    four results are a sum: the error, or the bit with both handles. *)
Definition hasIP : IO (error + (bool * Addr * Link)) :=
  r <- ParseAddr (vip flags) ;;
  match r with
  | inl err => ret (inl err)
  | inr vaddr =>
      r <- LinkByName (vif flags) ;;
      match r with
      | inl err => ret (inl err)
      | inr vlink =>
          r <- AddrList vlink FAMILY_ALL ;;
          match r with
          | inl err => ret (inl err)
          | inr addrs =>
              if range_addrs vaddr addrs
              then ret (inr (true, vaddr, vlink))
              else ret (inr (false, vaddr, vlink))
          end
      end
  end.

(** [releaseIP() error]; [None] is Go's nil. *)
Definition releaseIP : IO (option error) :=
  log_Debug "Releasing IP address" ;;
  r <- hasIP ;;
  match r with
  | inl err => ret (Some err)
  | inr (set, vaddr, vlink) =>
      if negb set then
        log_Debug "IP address not found" ;;
        ret None
      else
        r <- AddrDel vlink vaddr ;;
        match r with
        | Some err => ret (Some err)
        | None =>
            log_Info "IP address released" ;;
            ret None
        end
  end.

(** The body of [for i := 0; i < 5; i++]: [n] is the number of
    iterations still to run.  The result of the arping call is dropped. *)
Fixpoint arp_loop (n : nat) (ip : IP) (iface : string) : IO unit :=
  match n with
  | O => ret tt
  | S n' =>
      _ <- GratuitousArpOverIfaceByName ip iface ;;
      Sleep (1 * Second) ;;
      arp_loop n' ip iface
  end.

(** [ensureIP() (bool, error)]. *)
Definition ensureIP : IO (bool * option error) :=
  log_Debug "Ensuring IP address" ;;
  r <- hasIP ;;
  match r with
  | inl err => ret (false, Some err)
  | inr (set, vaddr, vlink) =>
      if set then
        log_Debug "IP address already set" ;;
        ret (false, None)
      else
        r <- AddrAdd vlink vaddr ;;
        match r with
        | Some err => ret (false, Some err)
        | None =>
            log_Info "IP address set, sending gratuitous ARPs" ;;
            arp_loop 5 (Addr_IP vaddr) (vif flags) ;;
            ret (true, None)
        end
  end.

(** ** The process: [main] and its two goroutines

    The program counters name the statement each goroutine is about to
    run.  One scheduler step runs one statement (a call to [releaseIP] or
    [ensureIP] is one statement); anything outside the program, signal
    delivery included, is a step of its own. *)

Inductive Tid : Type := main_g | leader_g | signals_g.

Inductive Exit : Type :=
| ExitCode (code : Z)          (* os.Exit(code), or return from main *)
| KilledBy (s : Signal).       (* signal with its default disposition *)

Inductive MainPC : Type :=
| M_flags                                 (* flag.Parse(); if *version *)
| M_release                               (* releaseIP() *)
| M_tls                                   (* tlsInfo.ClientConfig() *)
| M_client (tlsConfig : TLSConfig)        (* client.New(...) *)
| M_go_leader (cli : Client)              (* quit, exit, ctx; go func() *)
| M_notify (cli : Client)                 (* signal.Notify(signalChan, ..) *)
| M_go_signals (cli : Client)             (* go func() *)
| M_recv (cli : Client)                   (* code := <-exit *)
| M_close (cli : Client) (code : Z)       (* cli.Close() *)
| M_log (code : Z)                        (* log.Infof("Exiting ...") *)
| M_exit (code : Z).                      (* os.Exit(code) *)

Inductive LeaderPC : Type :=
| L_idle                                  (* not started *)
| L_start (cli : Client)                  (* defer func() { exit <- 0 }() *)
| L_session (cli : Client)                (* NewSession; defer s.Close() *)
| L_election (s : Session)                (* e := NewElection(s, *prefix) *)
| L_select (e : Election)                 (* for { select { *)
| L_campaign (e : Election)               (* e.Campaign(ctx, *member) *)
| L_ensure (e : Election)                 (* ensureIP(); defer releaseIP() *)
| L_return                                (* running the deferred calls *)
| L_done.

Inductive SigPC : Type :=
| S_idle                                  (* not started *)
| S_recv                                  (* s := <-signalChan *)
| S_cancel                                (* cancel() *)
| S_close                                 (* close(quit) *)
| S_done.

(** A deferred call of the leadership goroutine. *)
Inductive Deferred : Type :=
| D_exit                                  (* func() { exit <- 0 }() *)
| D_Session_Close (s : Session)           (* s.Close() *)
| D_releaseIP.                            (* releaseIP() *)

Record State : Type := mkState {
  world : World;
  trace : list (Tid * Event);
  exited : option Exit;
  mainpc : MainPC;
  leaderpc : LeaderPC;
  defers : list Deferred;                 (* last deferred first *)
  sigpc : SigPC;
  ctx_done : bool;                        (* cancel() was called *)
  quit_closed : bool;                     (* close(quit) was called *)
  signalChan : option Signal;             (* make(chan os.Signal, 1) *)
  notified : bool                         (* signal.Notify is in force *)
}.

Definition init (w : World) : State := {|
  world := w; trace := []; exited := None;
  mainpc := M_flags; leaderpc := L_idle; defers := []; sigpc := S_idle;
  ctx_done := false; quit_closed := false; signalChan := None;
  notified := false
|}.

Definition set_world (w : World) (st : State) : State :=
  mkState w (trace st) (exited st) (mainpc st) (leaderpc st) (defers st)
          (sigpc st) (ctx_done st) (quit_closed st) (signalChan st)
          (notified st).
Definition record (t : Tid) (evs : list Event) (st : State) : State :=
  mkState (world st) (trace st ++ map (pair t) evs) (exited st) (mainpc st)
          (leaderpc st) (defers st) (sigpc st) (ctx_done st)
          (quit_closed st) (signalChan st) (notified st).
Definition set_exited (x : Exit) (st : State) : State :=
  mkState (world st) (trace st) (Some x) (mainpc st) (leaderpc st)
          (defers st) (sigpc st) (ctx_done st) (quit_closed st)
          (signalChan st) (notified st).
Definition set_mainpc (pc : MainPC) (st : State) : State :=
  mkState (world st) (trace st) (exited st) pc (leaderpc st) (defers st)
          (sigpc st) (ctx_done st) (quit_closed st) (signalChan st)
          (notified st).
Definition set_leaderpc (pc : LeaderPC) (st : State) : State :=
  mkState (world st) (trace st) (exited st) (mainpc st) pc (defers st)
          (sigpc st) (ctx_done st) (quit_closed st) (signalChan st)
          (notified st).
Definition set_defers (ds : list Deferred) (st : State) : State :=
  mkState (world st) (trace st) (exited st) (mainpc st) (leaderpc st) ds
          (sigpc st) (ctx_done st) (quit_closed st) (signalChan st)
          (notified st).
Definition set_sigpc (pc : SigPC) (st : State) : State :=
  mkState (world st) (trace st) (exited st) (mainpc st) (leaderpc st)
          (defers st) pc (ctx_done st) (quit_closed st) (signalChan st)
          (notified st).
Definition set_ctx_done (b : bool) (st : State) : State :=
  mkState (world st) (trace st) (exited st) (mainpc st) (leaderpc st)
          (defers st) (sigpc st) b (quit_closed st) (signalChan st)
          (notified st).
Definition set_quit_closed (b : bool) (st : State) : State :=
  mkState (world st) (trace st) (exited st) (mainpc st) (leaderpc st)
          (defers st) (sigpc st) (ctx_done st) b (signalChan st)
          (notified st).
Definition set_signalChan (c : option Signal) (st : State) : State :=
  mkState (world st) (trace st) (exited st) (mainpc st) (leaderpc st)
          (defers st) (sigpc st) (ctx_done st) (quit_closed st) c
          (notified st).
Definition set_notified (b : bool) (st : State) : State :=
  mkState (world st) (trace st) (exited st) (mainpc st) (leaderpc st)
          (defers st) (sigpc st) (ctx_done st) (quit_closed st)
          (signalChan st) b.

(** Run a piece of sequential code on behalf of goroutine [t]. *)
Definition perform {A} (t : Tid) (m : IO A) (st : State) : A * State :=
  let r := m (world st) in
  (val r, record t (emitted r) (set_world (post r) st)).

(** [log.Fatal(err)]: log, then [os.Exit(1)]; nothing deferred runs. *)
Definition log_Fatal (t : Tid) (err : error) (st : State) : State :=
  set_exited (ExitCode 1)
    (record t [Log FatalLevel (Error err); OsExit 1] st).

Definition tlsInfo : TLSInfo := {|
  CertFile := certfile flags;
  KeyFile := keyfile flags;
  TrustedCAFile := cafile flags
|}.

(** One statement of [main].  The [defer cli.Close()] of [main] is left
    out: [main] never returns after it, every way out is [os.Exit]. *)
Definition step_main (st : State) : option State :=
  match mainpc st with
  | M_flags =>
      if version flags
      then Some (set_exited (ExitCode 0) (record main_g [Println Version] st))
      else Some (set_mainpc M_release st)
  | M_release =>
      let '(_, st1) := perform main_g releaseIP st in
      Some (set_mainpc M_tls st1)
  | M_tls =>
      let '(r, st1) :=
        perform main_g
          (ask (call_ClientConfig tlsInfo) (TLSInfo_ClientConfig tlsInfo)) st in
      match r with
      | inl err => Some (log_Fatal main_g err st1)
      | inr tlsConfig => Some (set_mainpc (M_client tlsConfig) st1)
      end
  | M_client tlsConfig =>
      let endpoints := strings_Split (etcdaddress flags) "," in
      let '(r, st1) :=
        perform main_g
          (act (call_client_New endpoints (5 * Second))
               (client_New endpoints (5 * Second) tlsConfig)) st in
      match r with
      | inl err => Some (log_Fatal main_g err st1)
      | inr cli => Some (set_mainpc (M_go_leader cli) st1)
      end
  | M_go_leader cli =>
      Some (set_mainpc (M_notify cli) (set_leaderpc (L_start cli) st))
  | M_notify cli =>
      Some (set_mainpc (M_go_signals cli)
             (set_notified true
               (record main_g [Ext (call_signal_Notify [SIGINT; SIGTERM])] st)))
  | M_go_signals cli =>
      Some (set_mainpc (M_recv cli) (set_sigpc S_recv st))
  | M_recv _ =>
      None                                  (* blocked until exit <- 0 *)
  | M_close cli code =>
      let '(_, st1) :=
        perform main_g
          (act call_Client_Close (fun w => (tt, Client_Close cli w))) st in
      Some (set_mainpc (M_log code) st1)
  | M_log code =>
      Some (set_mainpc (M_exit code)
             (record main_g
                [Log InfoLevel ("Exiting with code: " ++ string_of_Z code)] st))
  | M_exit code =>
      Some (set_exited (ExitCode code) (record main_g [OsExit code] st))
  end.

(** Which case of the [select] the runtime takes. *)
Inductive Case : Type := case_After | case_quit.

(** One statement of the leadership goroutine.  At [L_return] the
    deferred calls run, last deferred first; [exit <- 0] needs [main] at
    its receive. *)
Definition step_leader (c : Case) (st : State) : option State :=
  match leaderpc st with
  | L_idle => None
  | L_start cli =>
      Some (set_leaderpc (L_session cli) (set_defers (D_exit :: defers st) st))
  | L_session cli =>
      let '(r, st1) :=
        perform leader_g
          (act call_NewSession (concurrency_NewSession cli)) st in
      match r with
      | inl err => Some (log_Fatal leader_g err st1)
      | inr s =>
          Some (set_leaderpc (L_election s)
                 (set_defers (D_Session_Close s :: defers st1) st1))
      end
  | L_election s =>
      Some (set_leaderpc (L_select (concurrency_NewElection s (prefix flags)))
             (record leader_g [Ext (call_NewElection (prefix flags))] st))
  | L_select e =>
      match c with
      | case_After =>
          let '(_, st1) :=
            perform leader_g
              (act (call_After (5 * Second))
                   (fun w => (tt, time_passes (5 * Second) w)) ;;
               log_Debug "Waiting to become the leader") st in
          Some (set_leaderpc (L_campaign e) st1)
      | case_quit =>
          if quit_closed st then Some (set_leaderpc L_return st) else None
      end
  | L_campaign e =>
      match Election_Campaign e (ctx_done st) (member flags) (world st) with
      | None => None                        (* still waiting *)
      | Some (r, w1) =>
          let st1 :=
            record leader_g [Ext (call_Campaign (member flags))]
                   (set_world w1 st) in
          match r with
          | Some err =>
              if is_Canceled err
              then Some (set_leaderpc L_return st1)
              else Some (log_Fatal leader_g err st1)
          | None =>
              Some (set_leaderpc (L_ensure e)
                     (record leader_g [Log DebugLevel "I am the leader"] st1))
          end
      end
  | L_ensure e =>
      let '(r, st1) := perform leader_g ensureIP st in
      match r with
      | (_, Some err) => Some (log_Fatal leader_g err st1)
      | (res, None) =>
          if res
          then Some (set_leaderpc (L_select e)
                      (set_defers (D_releaseIP :: defers st1) st1))
          else Some (set_leaderpc (L_select e) st1)
      end
  | L_return =>
      match defers st with
      | [] => Some (set_leaderpc L_done st)
      | D_releaseIP :: ds =>
          let '(_, st1) := perform leader_g releaseIP st in
          Some (set_defers ds st1)
      | D_Session_Close s :: ds =>
          let '(_, st1) :=
            perform leader_g
              (act call_Session_Close (fun w => (tt, Session_Close s w))) st in
          Some (set_defers ds st1)
      | D_exit :: ds =>
          match mainpc st with
          | M_recv cli =>
              Some (set_mainpc (M_close cli 0)
                     (set_defers ds (record leader_g [SendExit 0] st)))
          | _ => None                       (* nobody receives yet *)
          end
      end
  | L_done => None
  end.

(** One statement of the signal goroutine. *)
Definition step_signals (st : State) : option State :=
  match sigpc st with
  | S_idle => None
  | S_recv =>
      match signalChan st with
      | None => None
      | Some s =>
          Some (set_sigpc S_cancel
                 (set_signalChan None
                   (record signals_g
                      [Log InfoLevel ("Received " ++ Signal_String s)] st)))
      end
  | S_cancel =>
      Some (set_sigpc S_close (set_ctx_done true (record signals_g [Cancel] st)))
  | S_close =>
      Some (set_sigpc S_done
             (set_quit_closed true (record signals_g [CloseQuit] st)))
  | S_done => None
  end.

(** Delivery of SIGINT or SIGTERM to the process.  Before
    [signal.Notify] the default disposition ends the process; after it
    the signal goes to [signalChan] if there is room and is dropped
    otherwise. *)
Definition deliver (s : Signal) (st : State) : option State :=
  if notified st then
    match signalChan st with
    | None => Some (set_signalChan (Some s) st)
    | Some _ => Some st
    end
  else Some (set_exited (KilledBy s) st).

Inductive Label : Type :=
| RunMain
| RunLeader (c : Case)
| RunSignals
| Deliver (s : Signal)
| Outside (i : Interference).

(** Nothing runs once the process is gone. *)
Definition step (l : Label) (st : State) : option State :=
  match exited st with
  | Some _ => None
  | None =>
      match l with
      | RunMain => step_main st
      | RunLeader c => step_leader c st
      | RunSignals => step_signals st
      | Deliver s => deliver s st
      | Outside i => Some (set_world (interfere i (world st)) st)
      end
  end.

(** A schedule is a list of labels; a label that is not enabled leaves
    the state as it is. *)
Definition next (l : Label) (st : State) : State :=
  match step l st with
  | Some st' => st'
  | None => st
  end.

Fixpoint run (script : list Label) (st : State) : State :=
  match script with
  | [] => st
  | l :: rest => run rest (next l st)
  end.

(** ** Reading traces *)

(** [releaseIP] opens with this log line and writes it nowhere else, so
    the line marks one call of [releaseIP]. *)
Definition is_release_call (e : Event) : bool :=
  match e with
  | Log DebugLevel msg => String.eqb msg "Releasing IP address"
  | _ => false
  end.

(** [ensureIP] writes this line after a successful [AddrAdd] only, on
    the path that returns [true]. *)
Definition is_newly_added (e : Event) : bool :=
  match e with
  | Log InfoLevel msg =>
      String.eqb msg "IP address set, sending gratuitous ARPs"
  | _ => false
  end.

Definition is_mutation (e : Event) : bool :=
  match e with
  | Ext (call_AddrAdd _ _) | Ext (call_AddrDel _ _) => true
  | _ => false
  end.

Definition is_arp (e : Event) : bool :=
  match e with
  | Ext (call_GratuitousArp _ _) => true
  | _ => false
  end.

(** Calls that reach the coordination service. *)
Definition is_coordination (e : Event) : bool :=
  match e with
  | Ext (call_client_New _ _) | Ext call_NewSession
  | Ext (call_Campaign _) | Ext call_Client_Close
  | Ext call_Session_Close => true
  | _ => false
  end.

Definition count (p : Event -> bool) (t : list Event) : nat :=
  length (filter p t).

Definition Tid_eqb (a b : Tid) : bool :=
  match a, b with
  | main_g, main_g | leader_g, leader_g | signals_g, signals_g => true
  | _, _ => false
  end.

(** The events of one goroutine, in order. *)
Definition by_tid (t : Tid) (tr : list (Tid * Event)) : list Event :=
  map snd (filter (fun x => Tid_eqb (fst x) t) tr).

Definition events (tr : list (Tid * Event)) : list Event := map snd tr.

Definition pending_releases (ds : list Deferred) : nat :=
  length (filter (fun d => match d with D_releaseIP => true | _ => false end) ds).

Definition is_lookup (e : Event) : bool :=
  match e with
  | Ext (call_ParseAddr _) | Ext (call_LinkByName _)
  | Ext (call_AddrList _ _) => true
  | _ => false
  end.

Definition is_Sleep (e : Event) : bool :=
  match e with
  | Ext (call_Sleep _) => true
  | _ => false
  end.

(** ** What the OS says about the configured address

    The configured pair resolves in [w] when the VIP parses, the
    interface is found and its address list can be read. *)
Definition resolves (w : World) (vaddr : Addr) (vlink : Link)
  (addrs : list Addr) : Prop :=
  netlink_ParseAddr (vip flags) = inr vaddr /\
  netlink_LinkByName (vif flags) w = inr vlink /\
  netlink_AddrList vlink FAMILY_ALL w = inr addrs.

Definition member_of (vaddr : Addr) (addrs : list Addr) : Prop :=
  exists addr, In addr addrs /\ Addr_Equal vaddr addr = true.

(** The address is on the interface, resp. is not, as the OS lists it. *)
Definition address_present (w : World) (vaddr : Addr) (vlink : Link) : Prop :=
  exists addrs, resolves w vaddr vlink addrs /\ member_of vaddr addrs.

Definition address_absent (w : World) (vaddr : Addr) (vlink : Link) : Prop :=
  exists addrs, resolves w vaddr vlink addrs /\ ~ member_of vaddr addrs.

(** The three calls of a [hasIP] that gets as far as the address list. *)
Definition lookups (vlink : Link) : list Event :=
  [Ext (call_ParseAddr (vip flags)); Ext (call_LinkByName (vif flags));
   Ext (call_AddrList vlink FAMILY_ALL)].

(** [n] announcements, each followed by its one-second pause. *)
Fixpoint announce (n : nat) (ip : IP) (iface : string) : list Event :=
  match n with
  | O => []
  | S n' =>
      Ext (call_GratuitousArp ip iface) :: Ext (call_Sleep (1 * Second))
        :: announce n' ip iface
  end.

Definition is_Cancel (e : Event) : bool :=
  match e with Cancel => true | _ => false end.

Definition is_CloseQuit (e : Event) : bool :=
  match e with CloseQuit => true | _ => false end.

Definition is_Fatal (e : Event) : bool :=
  match e with Log FatalLevel _ => true | _ => false end.

(** Events that sequential library-facing code never produces. *)
Definition is_control (e : Event) : bool :=
  match e with
  | Cancel | CloseQuit | SendExit _ | OsExit _ | Log FatalLevel _ => true
  | _ => false
  end.

(** Calls of [releaseIP] made so far by the leadership goroutine, and
    calls of [ensureIP] in it that reported "newly added". *)
Definition released (st : State) : nat :=
  count is_release_call (by_tid leader_g (trace st)).

Definition fresh (st : State) : nat :=
  count is_newly_added (by_tid leader_g (trace st)).

Definition returning (pc : LeaderPC) : bool :=
  match pc with
  | L_return | L_done => true
  | _ => false
  end.

(** The signal goroutine has taken its signal. *)
Definition consumed (pc : SigPC) : bool :=
  match pc with
  | S_cancel | S_close | S_done => true
  | _ => false
  end.

(** A state with the content of [signalChan] blanked out: two states
    with the same image differ at most in a signal nobody has read. *)
Definition forget_signalChan (st : State) : State := set_signalChan None st.

(** [main] has started both goroutines or is about to. *)
Definition spawned (pc : MainPC) : bool :=
  match pc with
  | M_notify _ | M_go_signals _ | M_recv _ => true
  | _ => false
  end.

(** ** Invariants of the process *)

(** [main] has not started the leadership goroutine yet. *)
Definition before_go (pc : MainPC) : bool :=
  match pc with
  | M_flags | M_release | M_tls | M_client _ | M_go_leader _ => true
  | _ => false
  end.

(** [main] has not called [client.New] yet. *)
Definition before_client (pc : MainPC) : bool :=
  match pc with
  | M_flags | M_release | M_tls | M_client _ => true
  | _ => false
  end.

(** [main] has not started the signal goroutine yet. *)
Definition before_signals (pc : MainPC) : bool :=
  match pc with
  | M_notify _ | M_go_signals _ => true
  | pc' => before_go pc'
  end.

(** The code [main] took from [exit], once it has one. *)
Definition main_code (pc : MainPC) : option Z :=
  match pc with
  | M_close _ code | M_log code | M_exit code => Some code
  | _ => None
  end.

(** Pending release obligations and release calls made add up to the
    fresh additions reported; releases only run on the way out. *)
Definition obligations_balanced (st : State) : Prop :=
  (pending_releases (defers st) + released st = fresh st)%nat /\
  (returning (leaderpc st) = false -> released st = 0%nat) /\
  (leaderpc st = L_done -> defers st = []) /\
  (before_go (mainpc st) = true -> leaderpc st = L_idle).

(** The deferred calls of the leadership goroutine while it has not
    returned: the release obligations on top of [s.Close()] and the
    completion signal. *)
Definition leader_frames (st : State) : Prop :=
  match leaderpc st with
  | L_idle => defers st = []
  | L_start _ => defers st = [] /\ spawned (mainpc st) = true
  | L_session _ => defers st = [D_exit] /\ spawned (mainpc st) = true
  | L_election s =>
      defers st = [D_Session_Close s; D_exit] /\ spawned (mainpc st) = true
  | L_select _ | L_campaign _ | L_ensure _ =>
      (exists n s,
         defers st = (repeat D_releaseIP n ++ [D_Session_Close s; D_exit])%list)
      /\ spawned (mainpc st) = true
  | L_return | L_done => True
  end /\
  (before_go (mainpc st) = true -> leaderpc st = L_idle).

(** What the signal goroutine has done, by its program counter. *)
Definition coordinator_state (st : State) : Prop :=
  let cancels := count is_Cancel (events (trace st)) in
  let closes := count is_CloseQuit (events (trace st)) in
  match sigpc st with
  | S_idle | S_recv | S_cancel =>
      cancels = 0%nat /\ closes = 0%nat /\
      ctx_done st = false /\ quit_closed st = false
  | S_close =>
      cancels = 1%nat /\ closes = 0%nat /\
      ctx_done st = true /\ quit_closed st = false
  | S_done =>
      cancels = 1%nat /\ closes = 1%nat /\
      ctx_done st = true /\ quit_closed st = true
  end /\
  (before_signals (mainpc st) = true -> sigpc st = S_idle) /\
  (sigpc st <> S_idle -> notified st = true) /\
  (forall cli, mainpc st = M_go_signals cli -> notified st = true).

(** [main] holds an exit code only after the leadership goroutine sent
    it, and a clean exit is the last thing in the trace. *)
Definition exit_after_completion (st : State) : Prop :=
  (forall code, main_code (mainpc st) = Some code ->
     code = 0%Z /\ In (leader_g, SendExit 0) (trace st)) /\
  (exited st = Some (ExitCode 0) ->
     version flags = true \/
     exists t, trace st = (t ++ [(main_g, OsExit 0)])%list /\
               In (leader_g, SendExit 0) t).

(** Up to the first call to the coordination service. *)
Definition startup_shape (st : State) : Prop :=
  (count is_coordination (events (trace st)) = 0%nat /\
   before_client (mainpc st) = true /\
   leaderpc st = L_idle /\ sigpc st = S_idle /\
   count is_release_call (events (trace st)) =
     match mainpc st with
     | M_flags | M_release => 0%nat
     | _ => 1%nat
     end) \/
  (exists t1 ev t2,
     trace st = (t1 ++ ev :: t2)%list /\
     is_coordination (snd ev) = true /\
     count is_coordination (events t1) = 0%nat /\
     count is_release_call (events t1) = 1%nat).

(** The leadership goroutine has opened its session. *)
Definition in_session (pc : LeaderPC) : bool :=
  match pc with
  | L_idle | L_start _ | L_session _ => false
  | _ => true
  end.

(** Which calls to the coordination service lie behind a state. *)
Definition contacts_made (st : State) : Prop :=
  (before_client (mainpc st) = false ->
     In (main_g, Ext (call_client_New
                        (strings_Split (etcdaddress flags) ",") (5 * Second)))
        (trace st)) /\
  (before_go (mainpc st) = true -> leaderpc st = L_idle) /\
  (in_session (leaderpc st) = true ->
     In (leader_g, Ext call_NewSession) (trace st)) /\
  (forall e, leaderpc st = L_ensure e ->
     In (leader_g, Ext (call_Campaign (member flags))) (trace st)).

(** The signal goroutine has taken its signal and [main] is past
    starting it: nothing reads [signalChan] any more. *)
Definition reading_over (st : State) : Prop :=
  consumed (sigpc st) = true /\ before_signals (mainpc st) = false.

(** ** More ways to read a trace *)

Definition is_AddrAdd (e : Event) : bool :=
  match e with Ext (call_AddrAdd _ _) => true | _ => false end.

Definition is_AddrDel (e : Event) : bool :=
  match e with Ext (call_AddrDel _ _) => true | _ => false end.

Definition is_After (e : Event) : bool :=
  match e with Ext (call_After _) => true | _ => false end.

Definition is_Campaign (e : Event) : bool :=
  match e with Ext (call_Campaign _) => true | _ => false end.

Definition is_SendExit (e : Event) : bool :=
  match e with SendExit _ => true | _ => false end.

(** The line the loop writes after a campaign it won. *)
Definition is_leader_line (e : Event) : bool :=
  match e with
  | Log DebugLevel msg => String.eqb msg "I am the leader"
  | _ => false
  end.

(** The opening line of [ensureIP]: one per call. *)
Definition is_ensure_call (e : Event) : bool :=
  match e with
  | Log DebugLevel msg => String.eqb msg "Ensuring IP address"
  | _ => false
  end.

(** The calls [hasIP], [releaseIP] and [ensureIP] can make. *)
Definition is_netcall (e : Event) : bool :=
  is_lookup e || is_mutation e || is_arp e || is_Sleep e.

Definition b2n (b : bool) : nat := if b then 1%nat else 0%nat.

Definition at_campaign (pc : LeaderPC) : bool :=
  match pc with L_campaign _ => true | _ => false end.

Definition at_ensure (pc : LeaderPC) : bool :=
  match pc with L_ensure _ => true | _ => false end.

(** ** More invariants of the process *)

(** With [-version] nothing happens but the print. *)
Definition version_only (st : State) : Prop :=
  mainpc st = M_flags /\ leaderpc st = L_idle /\ sigpc st = S_idle /\
  defers st = [] /\
  ((trace st = [] /\ (exited st = None \/ exists s, exited st = Some (KilledBy s)))
   \/ (trace st = [(main_g, Println Version)] /\
       exited st = Some (ExitCode 0))).

(** The calls to the coordination service come in order: none before
    [client.New], only that one until the leadership goroutine has its
    session; [main] holds an exit code only once that goroutine is on
    its way out, and nothing is sent on [exit] before. *)
Definition contact_order (st : State) : Prop :=
  (before_go (mainpc st) = true -> leaderpc st = L_idle) /\
  (main_code (mainpc st) <> None -> returning (leaderpc st) = true) /\
  (exited st = None -> in_session (leaderpc st) = false ->
     filter is_coordination (events (trace st)) =
       if before_client (mainpc st) then []
       else [Ext (call_client_New
                    (strings_Split (etcdaddress flags) ",") (5 * Second))]) /\
  (returning (leaderpc st) = false ->
     count is_SendExit (events (trace st)) = 0%nat).

(** A fatal exit finds the leadership goroutine short of its return. *)
Definition fatal_short_of_return (st : State) : Prop :=
  (exited st = Some (ExitCode 1) -> returning (leaderpc st) = false) /\
  (before_go (mainpc st) = true -> leaderpc st = L_idle) /\
  (forall code, main_code (mainpc st) = Some code -> code = 0%Z) /\
  (forall code, exited st = Some (ExitCode code) ->
     code = 0%Z \/
     code = 1%Z /\
     exists t tid msg,
       trace st = (t ++ [(tid, Log FatalLevel msg); (tid, OsExit 1)])%list).

(** Who changes addresses, and how often. *)
Definition mutations_accounted (st : State) : Prop :=
  count is_AddrAdd (by_tid main_g (trace st)) = 0%nat /\
  count is_mutation (by_tid signals_g (trace st)) = 0%nat /\
  (count is_AddrDel (by_tid main_g (trace st)) <= 1)%nat /\
  (count is_AddrDel (by_tid leader_g (trace st)) <= released st)%nat /\
  (fresh st <= count is_AddrAdd (by_tid leader_g (trace st)))%nat /\
  (match mainpc st with
   | M_flags | M_release => count is_AddrDel (by_tid main_g (trace st)) = 0%nat
   | _ => True
   end).

(** The loop in numbers: one campaign per timer, one [ensureIP] per
    campaign won.  The equalities hold while the process runs; a fatal
    exit stops it in the middle of a round. *)
Definition loop_cadence (st : State) : Prop :=
  let t := by_tid leader_g (trace st) in
  (exited st = None ->
     count is_After t =
       (count is_Campaign t + b2n (at_campaign (leaderpc st)))%nat /\
     count is_leader_line t =
       (count is_ensure_call t + b2n (at_ensure (leaderpc st)))%nat) /\
  (count is_Campaign t <= count is_After t <= count is_Campaign t + 1)%nat /\
  (count is_ensure_call t <= count is_leader_line t
     <= count is_ensure_call t + 1)%nat /\
  (count is_leader_line t <= count is_Campaign t)%nat /\
  (count is_AddrAdd t <= count is_ensure_call t)%nat /\
  (before_go (mainpc st) = true -> leaderpc st = L_idle).

End Program.

Arguments mkOut {X A} _ _ _.
Arguments val {X A} _.
Arguments post {X A} _.
Arguments emitted {X A} _.
Arguments hasIP : simpl never.
Arguments releaseIP : simpl never.
Arguments ensureIP : simpl never.

(** ** A simulated host

    A small concrete world: interfaces with their address lists, a
    privilege bit for address changes, an etcd that is up or down and
    answers campaigns from a list.  It instantiates [External], runs the
    program on concrete inputs and shows that the hypotheses used below
    can be met. *)
Module Sim.

Record addr : Type := {
  octets : list nat;
  ones : nat;
  label : string
}.

Fixpoint octets_eqb (a b : list nat) : bool :=
  match a, b with
  | [], [] => true
  | x :: a', y :: b' => Nat.eqb x y && octets_eqb a' b'
  | _, _ => false
  end.

(** [Addr.Equal]: same IP and same prefix length; the label is ignored. *)
Definition Equal (a x : addr) : bool :=
  octets_eqb (octets a) (octets x) && Nat.eqb (ones a) (ones x).

Definition digit (c : ascii) : option nat :=
  let n := nat_of_ascii c in
  if (48 <=? n)%nat && (n <=? 57)%nat then Some (n - 48)%nat else None.

Fixpoint number_acc (s : string) (acc : nat) : option nat :=
  match s with
  | EmptyString => Some acc
  | String c rest =>
      match digit c with
      | Some d => number_acc rest (10 * acc + d)%nat
      | None => None
      end
  end.

Definition number (s : string) : option nat :=
  match s with
  | EmptyString => None
  | _ => number_acc s 0
  end.

(** Dotted-quad IPv4 in CIDR form, "a.b.c.d/n". *)
Definition ParseAddr (s : string) : error + addr :=
  let bad := inl (Err ("invalid CIDR address: " ++ s)) in
  match strings_Split s "/" with
  | [quad; len] =>
      match map number (strings_Split quad "."), number len with
      | [Some a; Some b; Some c; Some d], Some n =>
          if forallb (fun x => x <=? 255)%nat [a; b; c; d] && (n <=? 32)%nat
          then inr {| octets := [a; b; c; d]; ones := n; label := "" |}
          else bad
      | _, _ => bad
      end
  | _ => bad
  end.

Record iface : Type := {
  if_name : string;
  if_index : nat;
  if_addrs : list addr
}.

Record world : Type := {
  ifaces : list iface;
  net_admin : bool;                 (* may change addresses *)
  dump_ok : bool;                   (* the address dump answers *)
  arp_ok : bool;                    (* ARP frames can be sent *)
  certs : bool;                     (* credential files are readable *)
  etcd_up : bool;
  campaigns : list (option error);  (* answers to the coming campaigns *)
  clock : Z                         (* milliseconds *)
}.

Definition with_ifaces (l : list iface) (w : world) : world :=
  {| ifaces := l; net_admin := net_admin w; dump_ok := dump_ok w;
     arp_ok := arp_ok w; certs := certs w; etcd_up := etcd_up w;
     campaigns := campaigns w; clock := clock w |}.

Definition with_campaigns (l : list (option error)) (w : world) : world :=
  {| ifaces := ifaces w; net_admin := net_admin w; dump_ok := dump_ok w;
     arp_ok := arp_ok w; certs := certs w; etcd_up := etcd_up w;
     campaigns := l; clock := clock w |}.

Definition with_clock (t : Z) (w : world) : world :=
  {| ifaces := ifaces w; net_admin := net_admin w; dump_ok := dump_ok w;
     arp_ok := arp_ok w; certs := certs w; etcd_up := etcd_up w;
     campaigns := campaigns w; clock := t |}.

Definition LinkByName (name : string) (w : world) : error + nat :=
  match find (fun i => String.eqb (if_name i) name) (ifaces w) with
  | Some i => inr (if_index i)
  | None => inl (Err "Link not found")
  end.

Definition by_index (l : nat) (w : world) : option iface :=
  find (fun i => Nat.eqb (if_index i) l) (ifaces w).

Definition AddrList (l : nat) (f : Family) (w : world) : error + list addr :=
  if dump_ok w then
    match by_index l w with
    | Some i => inr (if_addrs i)
    | None => inl (Err "no such device")
    end
  else inl (Err "netlink receive: interrupted system call").

Definition update (l : nat) (f : list addr -> list addr) (w : world) : world :=
  with_ifaces
    (map (fun i => if Nat.eqb (if_index i) l
                   then {| if_name := if_name i; if_index := if_index i;
                           if_addrs := f (if_addrs i) |}
                   else i) (ifaces w)) w.

Definition AddrAdd (l : nat) (a : addr) (w : world) : option error * world :=
  if net_admin w then
    match by_index l w with
    | None => (Some (Err "no such device"), w)
    | Some i =>
        if existsb (Equal a) (if_addrs i)
        then (Some (Err "file exists"), w)
        else (None, update l (fun l' => (l' ++ [a])%list) w)
    end
  else (Some (Err "operation not permitted"), w).

Definition AddrDel (l : nat) (a : addr) (w : world) : option error * world :=
  if net_admin w then
    match by_index l w with
    | None => (Some (Err "no such device"), w)
    | Some i =>
        if existsb (Equal a) (if_addrs i)
        then (None, update l (filter (fun x => negb (Equal a x))) w)
        else (Some (Err "cannot assign requested address"), w)
    end
  else (Some (Err "operation not permitted"), w).

Definition GratuitousArp (ip : list nat) (name : string) (w : world)
  : option error * world :=
  if arp_ok w then (None, w) else (Some (Err "network is down"), w).

Definition ClientConfig (i : TLSInfo) (w : world) : error + unit :=
  if certs w then inr tt
  else inl (Err ("open " ++ CertFile i ++ ": no such file or directory")).

Definition dial {A} (a : A) (w : world) : (error + A) * world :=
  if etcd_up w then (inr a, w)
  else (inl (Err "context deadline exceeded"), w).

(** A cancelled context ends the campaign; otherwise the next answer of
    the list is given, and an empty list means somebody else leads. *)
Definition Campaign (e : string) (cancelled : bool) (v : string) (w : world)
  : option (option error * world) :=
  if cancelled then Some (Some context_Canceled, w)
  else
    match campaigns w with
    | [] => None
    | r :: rest => Some (r, with_campaigns rest w)
    end.

(** What an administrator does behind the program's back. *)
Inductive admin : Type :=
| ip_addr_add (dev : string) (a : addr)
| ip_addr_del (dev : string) (a : addr).

Definition admin_does (c : admin) (w : world) : world :=
  match c with
  | ip_addr_add dev a =>
      match LinkByName dev w with
      | inr l => update l (fun l' => (l' ++ [a])%list) w
      | inl _ => w
      end
  | ip_addr_del dev a =>
      match LinkByName dev w with
      | inr l => update l (filter (fun x => negb (Equal a x))) w
      | inl _ => w
      end
  end.

#[global] Instance host : External := {|
  World := world;
  Addr := addr;
  Link := nat;
  IP := list nat;
  TLSConfig := unit;
  Client := unit;
  Session := unit;
  Election := string;
  netlink_ParseAddr := ParseAddr;
  Addr_Equal := Equal;
  Addr_IP := octets;
  netlink_LinkByName := LinkByName;
  netlink_AddrList := AddrList;
  netlink_AddrAdd := AddrAdd;
  netlink_AddrDel := AddrDel;
  arping_GratuitousArpOverIfaceByName := GratuitousArp;
  time_passes := fun ms w => with_clock (clock w + ms) w;
  TLSInfo_ClientConfig := ClientConfig;
  client_New := fun _ _ _ => dial tt;
  Client_Close := fun _ w => w;
  concurrency_NewSession := fun _ => dial tt;
  Session_Close := fun _ w => w;
  concurrency_NewElection := fun _ pfx => pfx;
  Election_Campaign := Campaign;
  Interference := admin;
  interfere := admin_does
|}.

Definition the_vip : addr :=
  {| octets := [192; 168; 0; 254]; ones := 32; label := "" |}.

Definition eth0 (l : list addr) : iface :=
  {| if_name := "eth0"; if_index := 2; if_addrs := l |}.

Definition lo : iface :=
  {| if_name := "lo"; if_index := 1;
     if_addrs := [{| octets := [127; 0; 0; 1]; ones := 8; label := "lo" |}] |}.

(** A healthy host on which the VIP is not configured. *)
Definition host0 (answers : list (option error)) : world :=
  {| ifaces := [lo; eth0 [{| octets := [192; 168; 0; 7]; ones := 24;
                            label := "eth0" |}]];
     net_admin := true; dump_ok := true; arp_ok := true; certs := true;
     etcd_up := true; campaigns := answers; clock := 0 |}.

(** The same host with the VIP already on eth0. *)
Definition host1 (answers : list (option error)) : world :=
  admin_does (ip_addr_add "eth0" the_vip) (host0 answers).

Definition bad_flags : Flags := {|
  version := false;
  prefix := "/govip/";
  member := "hostname";
  vip := "not-a-cidr";
  vif := "eth0";
  etcdaddress := "https://127.0.0.1:2379";
  cafile := "ca.crt";
  certfile := "server.crt";
  keyfile := "server.key"
|}.

(** [main] up to its receive on [exit]; then the leadership goroutine up
    to its first [select]. *)
Definition boot : list Label :=
  [RunMain; RunMain; RunMain; RunMain; RunMain; RunMain; RunMain;
   RunLeader case_After; RunLeader case_After; RunLeader case_After].

(** One round of the loop: timer, campaign, ensureIP. *)
Definition round : list Label :=
  [RunLeader case_After; RunLeader case_After; RunLeader case_After].

(** The healthy host, but ARP frames cannot be sent. *)
Definition host_mute : world :=
  {| ifaces := ifaces (host0 []); net_admin := true; dump_ok := true;
     arp_ok := false; certs := true; etcd_up := true; campaigns := [];
     clock := 0 |}.

(** The VIP is on eth0 but the process may not change addresses. *)
Definition host_unprivileged : world :=
  {| ifaces := ifaces (host1 []); net_admin := false; dump_ok := true;
     arp_ok := true; certs := true; etcd_up := true; campaigns := [];
     clock := 0 |}.

(** Up to the first campaign. *)
Definition to_campaign : list Label := (boot ++ [RunLeader case_After])%list.

(** Lead, then wait in a second campaign while SIGTERM arrives and the
    signal goroutine cancels the context. *)
Definition cancelled_in_campaign : list Label :=
  (boot ++ round ++
   [RunLeader case_After; Deliver SIGTERM; RunSignals; RunSignals])%list.

(** Lead, lose the address to an administrator, be confirmed again. *)
Definition reacquire : list Label :=
  (boot ++ round ++ [Outside (ip_addr_del "eth0" the_vip)] ++ round)%list.

(** SIGINT, the signal goroutine to its end, the leader out of its
    [select] by [quit]. *)
Definition shutdown : list Label :=
  [Deliver SIGINT; RunSignals; RunSignals; RunSignals; RunLeader case_quit].

Definition unwind (n : nat) : list Label := repeat (RunLeader case_quit) n.

(** [main] from the received code to [os.Exit]. *)
Definition leave : list Label := [RunMain; RunMain; RunMain].

(** The flags of a run asked for its version only. *)
Definition version_flags : Flags := {|
  version := true;
  prefix := "/govip/";
  member := "hostname";
  vip := "192.168.0.254/32";
  vif := "eth0";
  etcdaddress := "https://127.0.0.1:2379";
  cafile := "ca.crt";
  certfile := "server.crt";
  keyfile := "server.key"
|}.

(** An interface the host does not have, and three endpoints. *)
Definition vif0_flags : Flags := {|
  version := false;
  prefix := "/govip/";
  member := "hostname";
  vip := "192.168.0.254/32";
  vif := "vif0";
  etcdaddress := "https://10.0.0.1:2379,https://10.0.0.2:2379,https://10.0.0.3:2379";
  cafile := "ca.crt";
  certfile := "server.crt";
  keyfile := "server.key"
|}.

(** The host with the VIP, eth0 listing its addresses the other way
    round. *)
Definition host1_reversed : world :=
  {| ifaces := [lo; eth0 [the_vip;
                          {| octets := [192; 168; 0; 7]; ones := 24;
                             label := "eth0" |}]];
     net_admin := true; dump_ok := true; arp_ok := true; certs := true;
     etcd_up := true; campaigns := []; clock := 0 |}.

(** The healthy host without readable credential files, and without a
    reachable etcd. *)
Definition host_no_certs : world :=
  {| ifaces := ifaces (host0 []); net_admin := true; dump_ok := true;
     arp_ok := true; certs := false; etcd_up := true; campaigns := [];
     clock := 0 |}.

Definition host_no_etcd : world :=
  {| ifaces := ifaces (host0 []); net_admin := true; dump_ok := true;
     arp_ok := true; certs := true; etcd_up := false; campaigns := [];
     clock := 0 |}.

(** The same host seen through an etcd that accepts the connection and
    then grants no session. *)
Definition host_without_sessions : External := {|
  World := world;
  Addr := addr;
  Link := nat;
  IP := list nat;
  TLSConfig := unit;
  Client := unit;
  Session := unit;
  Election := string;
  netlink_ParseAddr := ParseAddr;
  Addr_Equal := Equal;
  Addr_IP := octets;
  netlink_LinkByName := LinkByName;
  netlink_AddrList := AddrList;
  netlink_AddrAdd := AddrAdd;
  netlink_AddrDel := AddrDel;
  arping_GratuitousArpOverIfaceByName := GratuitousArp;
  time_passes := fun ms w => with_clock (clock w + ms) w;
  TLSInfo_ClientConfig := ClientConfig;
  client_New := fun _ _ _ => dial tt;
  Client_Close := fun _ w => w;
  concurrency_NewSession :=
    fun _ w => (inl (Err "context deadline exceeded"), w);
  Session_Close := fun _ w => w;
  concurrency_NewElection := fun _ pfx => pfx;
  Election_Campaign := Campaign;
  Interference := admin;
  interfere := admin_does
|}.

(** [main] up to its receive, the leader up to [NewSession]. *)
Definition to_session {X : External} : list (@Label X) :=
  [RunMain; RunMain; RunMain; RunMain; RunMain; RunMain; RunMain;
   RunLeader case_After].

(** Lead and add the address, then fail the next campaign. *)
Definition lead_then_fail : list Label :=
  (boot ++ round ++ [RunLeader case_After; RunLeader case_After])%list.

End Sim.


(** * Properties *)

Section IPStateManager.

Context {X : External}.
Variable flags : Flags.

Lemma range_addrs_member vaddr addrs :
  range_addrs vaddr addrs = true <-> member_of vaddr addrs.
Proof.
  unfold member_of. induction addrs as [|a rest IH]; simpl.
  - split; [discriminate | intros (x & [] & _)].
  - destruct (Addr_Equal vaddr a) eqn:E.
    + split; [|reflexivity]. intros _. exists a. auto.
    + rewrite IH. split.
      * intros (x & Hin & Hx). exists x. auto.
      * intros (x & [<- | Hin] & Hx); [congruence|]. exists x. auto.
Qed.

Lemma range_addrs_not_member vaddr addrs :
  range_addrs vaddr addrs = false <-> ~ member_of vaddr addrs.
Proof.
  rewrite <- range_addrs_member. destruct (range_addrs vaddr addrs);
    split; congruence.
Qed.

(** The three lookups of [hasIP], spelled out. *)
Lemma hasIP_unfold w :
  hasIP flags w =
  match netlink_ParseAddr (vip flags) with
  | inl err => mkOut (inl err) w [Ext (call_ParseAddr (vip flags))]
  | inr vaddr =>
      match netlink_LinkByName (vif flags) w with
      | inl err =>
          mkOut (inl err) w
            [Ext (call_ParseAddr (vip flags)); Ext (call_LinkByName (vif flags))]
      | inr vlink =>
          match netlink_AddrList vlink FAMILY_ALL w with
          | inl err =>
              mkOut (inl err) w
                [Ext (call_ParseAddr (vip flags));
                 Ext (call_LinkByName (vif flags));
                 Ext (call_AddrList vlink FAMILY_ALL)]
          | inr addrs =>
              mkOut (inr (range_addrs vaddr addrs, vaddr, vlink)) w
                [Ext (call_ParseAddr (vip flags));
                 Ext (call_LinkByName (vif flags));
                 Ext (call_AddrList vlink FAMILY_ALL)]
          end
      end
  end.
Proof.
  unfold hasIP, bind, ParseAddr, LinkByName, AddrList, ask, ret.
  simpl.
  destruct (netlink_ParseAddr (vip flags)) as [e|vaddr]; simpl; [reflexivity|].
  destruct (netlink_LinkByName (vif flags) w) as [e|vlink]; simpl;
    [reflexivity|].
  destruct (netlink_AddrList vlink FAMILY_ALL w) as [e|addrs]; simpl;
    [reflexivity|].
  destruct (range_addrs vaddr addrs); reflexivity.
Qed.

Lemma hasIP_present w vaddr vlink :
  address_present flags w vaddr vlink ->
  hasIP flags w = mkOut (inr (true, vaddr, vlink)) w (lookups flags vlink).
Proof.
  intros (addrs & (Hp & Hl & Ha) & Hm). rewrite hasIP_unfold, Hp, Hl, Ha.
  apply range_addrs_member in Hm. rewrite Hm. reflexivity.
Qed.

Lemma hasIP_absent w vaddr vlink :
  address_absent flags w vaddr vlink ->
  hasIP flags w = mkOut (inr (false, vaddr, vlink)) w (lookups flags vlink).
Proof.
  intros (addrs & (Hp & Hl & Ha) & Hm). rewrite hasIP_unfold, Hp, Hl, Ha.
  apply range_addrs_not_member in Hm. rewrite Hm. reflexivity.
Qed.

Lemma hasIP_post w : post (hasIP flags w) = w.
Proof.
  rewrite hasIP_unfold.
  destruct (netlink_ParseAddr (vip flags)); [reflexivity|].
  destruct (netlink_LinkByName (vif flags) w) as [|vlink]; [reflexivity|].
  destruct (netlink_AddrList vlink FAMILY_ALL w); reflexivity.
Qed.

(** [releaseIP] and [ensureIP] in terms of what [hasIP] answers. *)
Lemma releaseIP_unfold w :
  releaseIP flags w =
  let h := hasIP flags w in
  let pre := Log DebugLevel "Releasing IP address" :: emitted h in
  match val h with
  | inl err => mkOut (Some err) (post h) pre
  | inr (false, _, _) =>
      mkOut None (post h) (pre ++ [Log DebugLevel "IP address not found"])
  | inr (true, vaddr, vlink) =>
      let d := netlink_AddrDel vlink vaddr (post h) in
      match fst d with
      | Some err =>
          mkOut (Some err) (snd d) (pre ++ [Ext (call_AddrDel vlink vaddr)])
      | None =>
          mkOut None (snd d)
            (pre ++ [Ext (call_AddrDel vlink vaddr);
                     Log InfoLevel "IP address released"])
      end
  end.
Proof.
  unfold releaseIP, bind, log_Debug, log_Info, emit, AddrDel, act, ret.
  cbv beta zeta. cbn [val post emitted app].
  destruct (hasIP flags w) as [[err|[[[] vaddr] vlink]] w' t];
    cbn [val post emitted app negb].
  - rewrite app_nil_r. reflexivity.
  - destruct (fst (netlink_AddrDel vlink vaddr w'));
      cbn [val post emitted app]; rewrite ?app_nil_r; reflexivity.
  - reflexivity.
Qed.

Lemma arp_loop_emitted n ip iface w :
  emitted (arp_loop n ip iface w) = announce n ip iface.
Proof.
  revert w. induction n as [|n IH]; intros w; [reflexivity|].
  cbn [arp_loop announce].
  unfold bind, GratuitousArpOverIfaceByName, Sleep, act.
  cbn [val post emitted app]. rewrite IH. reflexivity.
Qed.

Lemma count_announce p n ip iface :
  count p (announce n ip iface) =
  (n * count p [Ext (call_GratuitousArp ip iface);
                Ext (call_Sleep (1 * Second))])%nat.
Proof.
  unfold count. induction n as [|n IH]; [reflexivity|].
  cbn [announce]. change (S n * ?x)%nat with (x + n * x)%nat.
  rewrite <- IH. cbn [filter].
  destruct (p (Ext (call_GratuitousArp ip iface))),
           (p (Ext (call_Sleep (1 * Second)))); cbn [length Nat.add];
    reflexivity.
Qed.

Lemma ensureIP_unfold w :
  ensureIP flags w =
  let h := hasIP flags w in
  let pre := Log DebugLevel "Ensuring IP address" :: emitted h in
  match val h with
  | inl err => mkOut (false, Some err) (post h) pre
  | inr (true, _, _) =>
      mkOut (false, None) (post h)
        (pre ++ [Log DebugLevel "IP address already set"])
  | inr (false, vaddr, vlink) =>
      let a := netlink_AddrAdd vlink vaddr (post h) in
      match fst a with
      | Some err =>
          mkOut (false, Some err) (snd a)
            (pre ++ [Ext (call_AddrAdd vlink vaddr)])
      | None =>
          let l := arp_loop 5 (Addr_IP vaddr) (vif flags) (snd a) in
          mkOut (true, None) (post l)
            (pre ++ [Ext (call_AddrAdd vlink vaddr);
                     Log InfoLevel "IP address set, sending gratuitous ARPs"]
                 ++ emitted l)
      end
  end.
Proof.
  unfold ensureIP, bind, log_Debug, log_Info, emit, AddrAdd, act, ret.
  cbv beta zeta. cbn [val post emitted app].
  destruct (hasIP flags w) as [[err|[[[] vaddr] vlink]] w' t];
    cbn [val post emitted app].
  - rewrite app_nil_r. reflexivity.
  - reflexivity.
  - destruct (fst (netlink_AddrAdd vlink vaddr w'));
      cbn [val post emitted app]; rewrite ?app_nil_r; reflexivity.
Qed.

Lemma ensureIP_when_present w vaddr vlink :
  address_present flags w vaddr vlink ->
  ensureIP flags w =
  mkOut (false, None) w
    (Log DebugLevel "Ensuring IP address"
       :: (lookups flags vlink ++ [Log DebugLevel "IP address already set"])%list).
Proof.
  intros H. rewrite ensureIP_unfold, (hasIP_present _ _ _ H). reflexivity.
Qed.

Lemma releaseIP_bad_vip w err :
  netlink_ParseAddr (vip flags) = inl err ->
  releaseIP flags w =
  mkOut (Some err) w
    [Log DebugLevel "Releasing IP address"; Ext (call_ParseAddr (vip flags))].
Proof.
  intros H. rewrite releaseIP_unfold, hasIP_unfold, H. reflexivity.
Qed.

Lemma ensureIP_bad_vip w err :
  netlink_ParseAddr (vip flags) = inl err ->
  ensureIP flags w =
  mkOut (false, Some err) w
    [Log DebugLevel "Ensuring IP address"; Ext (call_ParseAddr (vip flags))].
Proof.
  intros H. rewrite ensureIP_unfold, hasIP_unfold, H. reflexivity.
Qed.

(** C5.  [hasIP] returns an error exactly when the configured address
    does not parse, or the interface is not found, or the address list of
    the found interface cannot be read.  Otherwise it returns the parsed
    address and the resolved link, and its bit is [true] if and only if
    the address is a member (up to [Addr.Equal]) of the list the OS
    returned for that link. *)
Theorem hasIP_observes (w : World) :
  ((exists err, val (hasIP flags w) = inl err) <->
     (exists err, netlink_ParseAddr (vip flags) = inl err) \/
     (exists err, netlink_LinkByName (vif flags) w = inl err) \/
     (exists vlink err,
        netlink_LinkByName (vif flags) w = inr vlink /\
        netlink_AddrList vlink FAMILY_ALL w = inl err)) /\
  (forall set vaddr vlink,
     val (hasIP flags w) = inr (set, vaddr, vlink) ->
     exists addrs,
       resolves flags w vaddr vlink addrs /\
       (set = true <-> member_of vaddr addrs)).
Proof.
  rewrite hasIP_unfold. unfold resolves.
  destruct (netlink_ParseAddr (vip flags)) as [e|vaddr] eqn:Hp.
  { cbn [val]. split; [|intros ? ? ? H; discriminate H]. split; eauto. }
  destruct (netlink_LinkByName (vif flags) w) as [e|vlink] eqn:Hl.
  { cbn [val]. split; [|intros ? ? ? H; discriminate H]. split; eauto. }
  destruct (netlink_AddrList vlink FAMILY_ALL w) as [e|addrs] eqn:Ha;
    cbn [val].
  { split; [|intros ? ? ? H; discriminate H]. split; eauto 7. }
  split.
  - split.
    + intros (err & H). discriminate.
    + intros [(err & H) | [(err & H) | (l & err & Hl' & H)]];
        try discriminate.
      injection Hl' as <-. congruence.
  - intros set va vl H. injection H as <- <- <-.
    exists addrs. split; [auto|]. apply range_addrs_member.
Qed.

(** C10.  [hasIP] is read-only: whatever it returns, the world after the
    call is the world before it, and the only calls it makes are the
    three lookups (parse, link by name, address list); it never calls
    [AddrAdd] or [AddrDel]. *)
Theorem hasIP_read_only (w : World) :
  post (hasIP flags w) = w /\
  forallb is_lookup (emitted (hasIP flags w)) = true /\
  count is_mutation (emitted (hasIP flags w)) = 0%nat.
Proof.
  rewrite hasIP_unfold.
  destruct (netlink_ParseAddr (vip flags)); [repeat split|].
  destruct (netlink_LinkByName (vif flags) w) as [|vlink]; [repeat split|].
  destruct (netlink_AddrList vlink FAMILY_ALL w); repeat split.
Qed.

(** C3.  [ensureIP] is idempotent.  In every world in which the OS lists
    the address on the interface, [ensureIP] returns [(false, nil)],
    leaves the world as it is and makes no [AddrAdd] or [AddrDel] call:
    its whole trace is the two log lines around the three lookups. *)
Theorem ensureIP_idempotent (w : World) (vaddr : Addr) (vlink : Link) :
  address_present flags w vaddr vlink ->
  val (ensureIP flags w) = (false, None) /\
  post (ensureIP flags w) = w /\
  count is_mutation (emitted (ensureIP flags w)) = 0%nat /\
  emitted (ensureIP flags w) =
    Log DebugLevel "Ensuring IP address"
      :: (lookups flags vlink ++ [Log DebugLevel "IP address already set"])%list.
Proof.
  intros H. rewrite (ensureIP_when_present _ _ _ H).
  cbn [val post emitted]. repeat split.
Qed.

(** C4.  [releaseIP] is idempotent.  Where the OS does not list the
    address, it returns nil, leaves the world as it is and makes no
    removal.  Where the OS lists it, it makes exactly one mutation call,
    [AddrDel] on the resolved link and address; the world afterwards and
    the error returned are those of that call, and when the call
    succeeds the release is logged. *)
Theorem releaseIP_idempotent (w : World) (vaddr : Addr) (vlink : Link) :
  (address_absent flags w vaddr vlink ->
     val (releaseIP flags w) = None /\
     post (releaseIP flags w) = w /\
     count is_mutation (emitted (releaseIP flags w)) = 0%nat) /\
  (address_present flags w vaddr vlink ->
     val (releaseIP flags w) = fst (netlink_AddrDel vlink vaddr w) /\
     post (releaseIP flags w) = snd (netlink_AddrDel vlink vaddr w) /\
     filter is_mutation (emitted (releaseIP flags w)) =
       [Ext (call_AddrDel vlink vaddr)] /\
     (fst (netlink_AddrDel vlink vaddr w) = None ->
      In (Log InfoLevel "IP address released")
         (emitted (releaseIP flags w)))).
Proof.
  split; intros H; rewrite releaseIP_unfold.
  - rewrite (hasIP_absent _ _ _ H). cbv zeta. cbn [val post emitted].
    repeat split.
  - rewrite (hasIP_present _ _ _ H). cbv zeta. cbn [val post emitted].
    destruct (fst (netlink_AddrDel vlink vaddr w)) eqn:E;
      cbn [val post emitted]; repeat split; try discriminate.
    intros _. cbn. auto 10.
Qed.

(** C6.  A call of [ensureIP] that puts the address on the interface
    (absent before, [AddrAdd] succeeds) makes exactly five announcement
    calls, each followed by a one-second sleep, and returns
    [(true, nil)] whatever the announcement calls return; a call that
    finds the address already present makes none. *)
Theorem ensureIP_announces (w : World) (vaddr : Addr) (vlink : Link) :
  (address_absent flags w vaddr vlink ->
   fst (netlink_AddrAdd vlink vaddr w) = None ->
     val (ensureIP flags w) = (true, None) /\
     filter (fun e => is_arp e || is_Sleep e) (emitted (ensureIP flags w)) =
       announce 5 (Addr_IP vaddr) (vif flags) /\
     count is_arp (emitted (ensureIP flags w)) = 5%nat) /\
  (address_present flags w vaddr vlink ->
     count is_arp (emitted (ensureIP flags w)) = 0%nat).
Proof.
  split; intros H.
  - intros Hadd. rewrite ensureIP_unfold, (hasIP_absent _ _ _ H).
    cbv zeta. cbn [val post emitted]. rewrite Hadd. cbn [val emitted].
    rewrite arp_loop_emitted. repeat split.
  - rewrite ensureIP_unfold, (hasIP_present _ _ _ H). reflexivity.
Qed.

End IPStateManager.

Section Process.

Context {X : External}.
Variable flags : Flags.

(** *** Bookkeeping on traces *)

Lemma count_app p (a b : list Event) :
  count p (a ++ b)%list = (count p a + count p b)%nat.
Proof. unfold count. rewrite filter_app, length_app. reflexivity. Qed.

Lemma count_cons p (a : Event) (l : list Event) :
  count p (a :: l) = ((if p a then 1 else 0) + count p l)%nat.
Proof. unfold count. cbn [filter]. destruct (p a); reflexivity. Qed.

Lemma by_tid_app t (a b : list (Tid * Event)) :
  by_tid t (a ++ b)%list = (by_tid t a ++ by_tid t b)%list.
Proof. unfold by_tid. rewrite filter_app, map_app. reflexivity. Qed.

Lemma by_tid_same t (evs : list Event) : by_tid t (map (pair t) evs) = evs.
Proof.
  unfold by_tid. induction evs as [|e evs IH]; [reflexivity|].
  cbn [map filter fst]. replace (Tid_eqb t t) with true by (destruct t; reflexivity).
  cbn [map snd]. f_equal. exact IH.
Qed.

Lemma by_tid_other t u (evs : list Event) :
  Tid_eqb u t = false -> by_tid t (map (pair u) evs) = [].
Proof.
  intros H. unfold by_tid. induction evs as [|e evs IH]; [reflexivity|].
  cbn [map filter fst]. rewrite H. exact IH.
Qed.

Lemma events_app (a b : list (Tid * Event)) :
  events (a ++ b)%list = (events a ++ events b)%list.
Proof. apply map_app. Qed.

Lemma events_tagged t (evs : list Event) : events (map (pair t) evs) = evs.
Proof.
  unfold events. rewrite map_map. cbn [snd]. apply map_id.
Qed.

(** *** What the sequential functions write to the trace *)

Lemma count_lookups p vlink :
  (forall e, is_lookup e = true -> p e = false) ->
  count p (lookups flags vlink) = 0%nat.
Proof.
  intros H. unfold count, lookups. cbn [filter].
  rewrite !H by reflexivity. reflexivity.
Qed.

Lemma hasIP_emitted_only_lookups p w :
  (forall e, is_lookup e = true -> p e = false) ->
  count p (emitted (hasIP flags w)) = 0%nat.
Proof.
  intros H. rewrite hasIP_unfold. unfold count.
  destruct (netlink_ParseAddr (vip flags)); cbn [emitted filter].
  { rewrite H by reflexivity. reflexivity. }
  destruct (netlink_LinkByName (vif flags) w) as [|vlink];
    cbn [emitted filter].
  { rewrite !H by reflexivity. reflexivity. }
  destruct (netlink_AddrList vlink FAMILY_ALL w); cbn [emitted filter];
    rewrite !H by reflexivity; reflexivity.
Qed.

Lemma lookup_not_release e : is_lookup e = true -> is_release_call e = false.
Proof. destruct e as [| |[]| | | |]; try discriminate; reflexivity. Qed.

Lemma lookup_not_newly e : is_lookup e = true -> is_newly_added e = false.
Proof. destruct e as [| |[]| | | |]; try discriminate; reflexivity. Qed.

Lemma lookup_not_control e : is_lookup e = true -> is_control e = false.
Proof. destruct e as [| |[]| | | |]; try discriminate; reflexivity. Qed.

(** Every call of [releaseIP] writes its opening line once, and never
    the line of a fresh addition. *)
Lemma releaseIP_counts w :
  count is_release_call (emitted (releaseIP flags w)) = 1%nat /\
  count is_newly_added (emitted (releaseIP flags w)) = 0%nat /\
  count is_control (emitted (releaseIP flags w)) = 0%nat.
Proof.
  rewrite releaseIP_unfold. cbv zeta.
  pose proof (hasIP_emitted_only_lookups _ w lookup_not_release) as H1.
  pose proof (hasIP_emitted_only_lookups _ w lookup_not_newly) as H2.
  pose proof (hasIP_emitted_only_lookups _ w lookup_not_control) as H3.
  destruct (val (hasIP flags w)) as [err|[[[] vaddr] vlink]];
    [| destruct (fst (netlink_AddrDel vlink vaddr (post (hasIP flags w)))) |];
    cbn [emitted]; rewrite ?count_app, !count_cons, H1, H2, H3;
    repeat split.
Qed.

(** [ensureIP] writes the line of a fresh addition exactly when it
    returns [true], and then it returns no error. *)
Lemma ensureIP_counts w :
  count is_release_call (emitted (ensureIP flags w)) = 0%nat /\
  count is_newly_added (emitted (ensureIP flags w)) =
    (if fst (val (ensureIP flags w)) then 1%nat else 0%nat) /\
  count is_control (emitted (ensureIP flags w)) = 0%nat /\
  (fst (val (ensureIP flags w)) = true -> snd (val (ensureIP flags w)) = None).
Proof.
  rewrite ensureIP_unfold. cbv zeta.
  pose proof (hasIP_emitted_only_lookups _ w lookup_not_release) as H1.
  pose proof (hasIP_emitted_only_lookups _ w lookup_not_newly) as H2.
  pose proof (hasIP_emitted_only_lookups _ w lookup_not_control) as H3.
  destruct (val (hasIP flags w)) as [err|[[[] vaddr] vlink]];
    [| | destruct (fst (netlink_AddrAdd vlink vaddr (post (hasIP flags w))))];
    cbn [emitted val fst snd];
    rewrite ?arp_loop_emitted, ?count_app, ?count_announce, !count_cons,
      H1, H2, H3;
    repeat split; discriminate.
Qed.

(** *** Schedules *)

Lemma next_exited l st x : exited st = Some x -> next flags l st = st.
Proof. intros H. unfold next, step. rewrite H. reflexivity. Qed.

Lemma run_exited script st x : exited st = Some x -> run flags script st = st.
Proof.
  intros H. induction script as [|l rest IH]; [reflexivity|].
  cbn [run]. rewrite (next_exited _ _ _ H). exact IH.
Qed.

Lemma run_app s1 s2 st :
  run flags (s1 ++ s2)%list st = run flags s2 (run flags s1 st).
Proof.
  revert st. induction s1 as [|l rest IH]; intros st; [reflexivity|].
  cbn [run app]. apply IH.
Qed.

(** A property kept by every enabled step holds along every schedule. *)
Lemma run_invariant (P : State -> Prop) :
  (forall l st st', P st -> step flags l st = Some st' -> P st') ->
  forall script st, P st -> P (run flags script st).
Proof.
  intros Hstep script. induction script as [|l rest IH]; intros st H;
    [exact H|].
  cbn [run]. apply IH. unfold next.
  destruct (step flags l st) as [st'|] eqn:E; [eauto | exact H].
Qed.

(** *** Tactics for one step of the process *)

Local Opaque hasIP releaseIP ensureIP.

Ltac proj :=
  cbn [world trace exited mainpc leaderpc defers sigpc ctx_done quit_closed
       signalChan notified set_world record set_exited set_mainpc
       set_leaderpc set_defers set_sigpc set_ctx_done set_quit_closed
       set_signalChan set_notified log_Fatal perform fst snd val post
       emitted bind emit log_Debug log_Info act ask ret] in *.

Ltac step_cases :=
  repeat match goal with
  | |- (if ?b then _ else _) = Some _ -> _ => destruct b eqn:?
  | |- match ?x with _ => _ end = Some _ -> _ => destruct x eqn:?
  | |- Some _ = Some _ -> _ => intros [= <-]
  | |- None = Some _ -> _ => discriminate
  end.

Ltac tids :=
  rewrite ?by_tid_app, ?count_app, ?by_tid_same;
  rewrite ?by_tid_other by reflexivity;
  rewrite ?app_nil_r;
  change (@count X ?p []) with 0%nat in *;
  rewrite ?Nat.add_0_r.

Ltac counts :=
  repeat match goal with
  | H : val _ = _ |- _ => rewrite H in *; clear H
  end;
  cbn [fst snd] in *; unfold pending_releases in *;
  cbn [filter length] in *.

Ltac wrong_pc :=
  solve [exfalso; match goal with
         | H : before_go _ = true -> _ = L_idle,
           H' : before_go _ = true |- _ => discriminate (H H')
         end].

(** *** Pending release obligations *)

Lemma obligations_balanced_step l st st' :
  obligations_balanced st -> step flags l st = Some st' ->
  obligations_balanced st'.
Proof.
  unfold obligations_balanced, released, fresh, step.
  destruct st as [w tr ex mpc lpc ds spc cd qc sc nt]. cbn [exited].
  destruct ex; [discriminate|].
  intros (Hb & Hr & Hd & Hg).
  cbn [trace defers leaderpc mainpc] in Hb, Hr, Hd, Hg.
  destruct l as [|c| |s|i].
  - unfold step_main. cbn [mainpc].
    destruct mpc; proj; step_cases; proj; tids;
      try (repeat split; solve [auto | discriminate]).
    rewrite (Hg eq_refl) in Hr. repeat split; auto; discriminate.
  - unfold step_leader. cbn [leaderpc].
    pose proof (ensureIP_counts w) as (E1 & E2 & E3 & E4).
    pose proof (releaseIP_counts w) as (R1 & R2 & R3).
    destruct lpc; proj; step_cases; proj; tids; counts;
      rewrite ?E1, ?E2, ?R1, ?R2;
      try match goal with
          | H : ?b = true -> Some _ = None |- _ =>
              destruct b; [discriminate (H eq_refl)|]
          end;
      try (pose proof (Hr eq_refl));
      repeat split; intros; try discriminate; try lia; auto;
      try wrong_pc.
  - unfold step_signals. cbn [sigpc].
    destruct spc; proj; step_cases; proj; tids; auto.
  - unfold deliver. proj. step_cases; proj; auto.
  - intros [= <-]. proj. auto.
Qed.

Lemma obligations_balanced_run w script :
  obligations_balanced (run flags script (init w)).
Proof.
  apply run_invariant; [intros; eapply obligations_balanced_step; eauto|].
  repeat split; try reflexivity; discriminate.
Qed.

(** *** Deferred calls, the coordinator, the exit code *)

Lemma leader_frames_step l st st' :
  leader_frames st -> step flags l st = Some st' -> leader_frames st'.
Proof.
  unfold leader_frames, step.
  destruct st as [w tr ex mpc lpc ds spc cd qc sc nt]. cbn [exited].
  destruct ex; [discriminate|].
  cbn [trace defers leaderpc mainpc].
  intros (Hf & Hg).
  destruct l as [|c| |s|i].
  - unfold step_main. cbn [mainpc].
    destruct mpc; proj; step_cases; proj; try (split; [exact Hf|exact Hg]);
    try (rewrite (Hg eq_refl) in *; split; [auto | discriminate]).
    all: try (split; [|discriminate]; destruct lpc; intuition).
  - unfold step_leader. cbn [leaderpc].
    destruct lpc; proj; step_cases; proj;
      try (split; [|intros; wrong_pc]);
      try solve [intuition (subst; auto)].
    + destruct Hf as (-> & Hs). split; [|exact Hs]. exists 0%nat, s. reflexivity.
    + destruct Hf as ((n & s & ->) & Hs). split; [|exact Hs].
      exists (S n), s. reflexivity.
  - unfold step_signals. cbn [sigpc].
    destruct spc; proj; step_cases; proj; auto.
  - unfold deliver. proj. step_cases; proj; auto.
  - intros [= <-]. proj. auto.
Qed.

Lemma leader_frames_run w script : leader_frames (run flags script (init w)).
Proof.
  apply run_invariant; [intros; eapply leader_frames_step; eauto|].
  split; [reflexivity|]. reflexivity.
Qed.

Lemma subcount (p q : Event -> bool) l :
  (forall e, p e = true -> q e = true) -> count q l = 0%nat -> count p l = 0%nat.
Proof.
  intros H. unfold count. induction l as [|a l IH]; [reflexivity|].
  cbn [filter]. destruct (p a) eqn:E.
  - rewrite (H _ E). discriminate.
  - destruct (q a); [discriminate|]. exact IH.
Qed.

Lemma Cancel_is_control e : is_Cancel e = true -> is_control e = true.
Proof. destruct e; try discriminate; reflexivity. Qed.

Lemma CloseQuit_is_control e : is_CloseQuit e = true -> is_control e = true.
Proof. destruct e; try discriminate; reflexivity. Qed.

Ltac etids :=
  rewrite ?events_app, ?count_app, ?events_tagged;
  change (@count X ?p []) with 0%nat in *;
  rewrite ?Nat.add_0_r.

Lemma coordinator_state_step l st st' :
  coordinator_state st -> step flags l st = Some st' -> coordinator_state st'.
Proof.
  unfold coordinator_state, step.
  destruct st as [w tr ex mpc lpc ds spc cd qc sc nt]. cbn [exited].
  destruct ex; [discriminate|].
  cbn [trace sigpc mainpc ctx_done quit_closed notified]. cbv zeta.
  intros (Hc & Hb & Hn & Hm).
  pose proof (ensureIP_counts w) as (_ & _ & E3 & _).
  pose proof (releaseIP_counts w) as (_ & _ & R3).
  pose proof (subcount _ _ _ Cancel_is_control E3) as E1.
  pose proof (subcount _ _ _ CloseQuit_is_control E3) as E2.
  pose proof (subcount _ _ _ Cancel_is_control R3) as R1.
  pose proof (subcount _ _ _ CloseQuit_is_control R3) as R2.
  destruct l as [|c| |s|i].
  - unfold step_main. cbn [mainpc].
    destruct mpc; proj; step_cases; proj; etids; rewrite ?R1, ?R2, ?Nat.add_0_r;
      try (split; [exact Hc|]; split; [exact Hb|]; split; [exact Hn|]; intros; discriminate).
    + split; [exact Hc|]. split; [intros _; apply Hb; reflexivity|]. auto.
    + rewrite (Hb eq_refl) in Hc. split; [exact Hc|].
      split; [discriminate|]. split; [intros _; eapply Hm; reflexivity|].
      discriminate.
  - unfold step_leader. cbn [leaderpc].
    destruct lpc; proj; step_cases; proj; etids;
      rewrite ?E1, ?E2, ?R1, ?R2, ?Nat.add_0_r;
      try (split; [exact Hc|]; split; [exact Hb|]; split; [exact Hn|]; exact Hm).
    split; [exact Hc|]. split; [discriminate|]. split; [exact Hn|]. discriminate.
  - unfold step_signals. cbn [sigpc].
    destruct spc; proj; step_cases; proj; etids; cbn [count filter length is_Cancel is_CloseQuit];
      destruct Hc as (C1 & C2 & C3 & C4); rewrite ?C1, ?C2;
      repeat split; auto; intros H; try discriminate (Hb H);
      apply Hn; discriminate.
  - unfold deliver. proj. step_cases; proj; auto.
  - intros [= <-]. proj. auto.
Qed.

Lemma coordinator_state_run w script :
  coordinator_state (run flags script (init w)).
Proof.
  apply run_invariant; [intros; eapply coordinator_state_step; eauto|].
  repeat split; try reflexivity; try discriminate. intros H; now elim H.
Qed.

Ltac code_part Hc :=
  let k := fresh "k" in
  let Hk := fresh "Hk" in
  intros k Hk; cbn [main_code] in Hk, Hc; try discriminate Hk;
  injection Hk as <-;
  let Hin := fresh "Hin" in
  destruct (Hc _ eq_refl) as (-> & Hin);
  split; [reflexivity | rewrite ?in_app_iff; auto].

Ltac code_keep Hc :=
  let k := fresh "k" in
  let Hk := fresh "Hk" in
  let Hin := fresh "Hin" in
  intros k Hk; destruct (Hc _ Hk) as (-> & Hin);
  split; [reflexivity | rewrite ?in_app_iff; auto].

Lemma exit_after_completion_step l st st' :
  exit_after_completion flags st -> step flags l st = Some st' ->
  exit_after_completion flags st'.
Proof.
  unfold exit_after_completion, step.
  destruct st as [w tr ex mpc lpc ds spc cd qc sc nt]. cbn [exited].
  destruct ex; [discriminate|].
  cbn [trace mainpc]. 
  intros (Hc & _).
  destruct l as [|c| |s|i].
  - unfold step_main. cbn [mainpc].
    destruct mpc; proj; step_cases; proj;
      (split; [try code_part Hc | intros He; try discriminate He; auto]).
    destruct (Hc _ eq_refl) as (-> & Hin). right. exists tr. split; auto.
  - unfold step_leader. cbn [leaderpc].
    destruct lpc; proj; step_cases; proj;
      (split; [try code_keep Hc | intros He; try discriminate He; auto]).
    intros k [= <-]. split; [reflexivity|].
    rewrite in_app_iff. right. left. reflexivity.
  - unfold step_signals. cbn [sigpc].
    destruct spc; proj; step_cases; proj;
      (split; [try code_keep Hc | intros He; try discriminate He; auto]).
  - unfold deliver. proj. step_cases; proj;
      (split; [try code_keep Hc | intros He; try discriminate He; auto]).
  - intros [= <-]. proj.
    split; [try code_keep Hc | intros He; try discriminate He; auto].
Qed.

Lemma exit_after_completion_run w script :
  exit_after_completion flags (run flags script (init w)).
Proof.
  apply run_invariant; [intros; eapply exit_after_completion_step; eauto|].
  split; [intros k H; discriminate H | intros H; discriminate H].
Qed.

(** *** The start of [main] *)

Lemma lookup_not_coordination e :
  is_lookup e = true -> is_coordination e = false.
Proof. destruct e as [| |[]| | | |]; try discriminate; reflexivity. Qed.

Lemma releaseIP_no_coordination w :
  count is_coordination (emitted (releaseIP flags w)) = 0%nat.
Proof.
  rewrite releaseIP_unfold. cbv zeta.
  pose proof (hasIP_emitted_only_lookups _ w lookup_not_coordination) as H1.
  destruct (val (hasIP flags w)) as [err|[[[] vaddr] vlink]];
    [| destruct (fst (netlink_AddrDel vlink vaddr (post (hasIP flags w)))) |];
    cbn [emitted]; rewrite ?count_app, !count_cons, H1; reflexivity.
Qed.

Lemma trace_grows l st st' :
  step flags l st = Some st' -> exists t, trace st' = (trace st ++ t)%list.
Proof.
  unfold step.
  destruct st as [w tr ex mpc lpc ds spc cd qc sc nt]. cbn [exited].
  destruct ex; [discriminate|].
  destruct l as [|c| |s|i].
  - unfold step_main. cbn [mainpc].
    destruct mpc; proj; step_cases; proj; rewrite <- ?app_assoc; eauto;
      exists []; rewrite app_nil_r; reflexivity.
  - unfold step_leader. cbn [leaderpc].
    destruct lpc; proj; step_cases; proj; rewrite <- ?app_assoc; eauto;
      exists []; rewrite app_nil_r; reflexivity.
  - unfold step_signals. cbn [sigpc].
    destruct spc; proj; step_cases; proj; rewrite <- ?app_assoc; eauto.
  - unfold deliver. proj. step_cases; proj; exists []; rewrite app_nil_r;
      reflexivity.
  - intros [= <-]. proj. exists []. rewrite app_nil_r. reflexivity.
Qed.

Lemma startup_shape_step l st st' :
  startup_shape st -> step flags l st = Some st' -> startup_shape st'.
Proof.
  intros [H | (t1 & ev & t2 & Ht & Hev & Hc & Hr)] Hstep.
  2:{ right. destruct (trace_grows _ _ _ Hstep) as (t & ->).
      exists t1, ev, (t2 ++ t)%list. rewrite Ht, <- app_assoc. auto. }
  revert H Hstep. unfold startup_shape, step.
  destruct st as [w tr ex mpc lpc ds spc cd qc sc nt]. cbn [exited].
  destruct ex; [discriminate|].
  cbn [trace mainpc leaderpc sigpc].
  intros (Hc & Hb & -> & -> & Hr).
  pose proof (releaseIP_counts w) as (R1 & _ & _).
  pose proof (releaseIP_no_coordination w) as R2.
  destruct l as [|c| |s|i].
  - unfold step_main. cbn [mainpc].
    destruct mpc; try discriminate Hb; proj; step_cases; proj; etids;
      rewrite ?R1, ?R2, ?Hc, ?Hr; try (left; repeat split; reflexivity).
    + right. eexists tr, (main_g, _), _. cbn [map]. rewrite <- app_assoc.
      split; [reflexivity|]. repeat split; assumption.
    + right. eexists tr, (main_g, _), _. cbn [map].
      split; [reflexivity|]. repeat split; assumption.
  - unfold step_leader. cbn [leaderpc]. discriminate.
  - unfold step_signals. cbn [sigpc]. discriminate.
  - unfold deliver. proj. step_cases; proj; left; auto.
  - intros [= <-]. proj. left; auto.
Qed.

Lemma startup_shape_run w script : startup_shape (run flags script (init w)).
Proof.
  apply run_invariant; [intros; eapply startup_shape_step; eauto|].
  left. repeat split.
Qed.

(** The first event satisfying [p] sits at one place only. *)
Lemma first_occurrence (p : Tid * Event -> bool) :
  forall t1 e t2 t1' e' t2',
    (t1 ++ e :: t2 = t1' ++ e' :: t2')%list ->
    p e = true -> p e' = true ->
    forallb (fun x => negb (p x)) t1 = true ->
    forallb (fun x => negb (p x)) t1' = true ->
    t1 = t1'.
Proof.
  induction t1 as [|a t1 IH]; intros e t2 [|a' t1'] e' t2' Heq He He' H1 H1';
    cbn [app forallb] in *.
  - reflexivity.
  - injection Heq as <- _. rewrite He in H1'. discriminate.
  - injection Heq as -> _. rewrite He' in H1. discriminate.
  - injection Heq as <- Heq. apply andb_prop in H1, H1'.
    f_equal. eapply IH; eauto; tauto.
Qed.

Lemma count_zero_forallb (p : Event -> bool) (t : list (Tid * Event)) :
  count p (events t) = 0%nat <->
  forallb (fun x => negb (p (snd x))) t = true.
Proof.
  unfold count, events. induction t as [|a t IH]; cbn [map filter forallb].
  - tauto.
  - destruct (p (snd a)); cbn [negb andb length]; [split; discriminate|].
    exact IH.
Qed.

Lemma contacts_made_step l st st' :
  contacts_made flags st -> step flags l st = Some st' ->
  contacts_made flags st'.
Proof.
  unfold contacts_made, step.
  destruct st as [w tr ex mpc lpc ds spc cd qc sc nt]. cbn [exited].
  destruct ex; [discriminate|].
  cbn [trace mainpc leaderpc].
  intros (Hc & Hg & Hs & He).
  destruct l as [|c| |s|i].
  - unfold step_main. cbn [mainpc].
    destruct mpc; proj; step_cases; proj;
      (split; [|split; [|split]]); intros; try discriminate;
      rewrite ?in_app_iff; cbn [map In]; eauto 6.
  - unfold step_leader. cbn [leaderpc].
    destruct lpc; proj; step_cases; proj;
      (split; [|split; [|split]]); intros; try discriminate;
      rewrite ?in_app_iff; cbn [map In]; eauto 6; try wrong_pc.
  - unfold step_signals. cbn [sigpc].
    destruct spc; proj; step_cases; proj;
      (split; [|split; [|split]]); intros; try discriminate;
      rewrite ?in_app_iff; cbn [map In]; eauto 6.
  - unfold deliver. proj. step_cases; proj; auto.
  - intros [= <-]. proj. auto.
Qed.

Lemma contacts_made_run w script :
  contacts_made flags (run flags script (init w)).
Proof.
  apply run_invariant; [intros; eapply contacts_made_step; eauto|].
  repeat split; intros; discriminate.
Qed.

(** *** Running the deferred calls *)

Lemma unwind_releases n : forall st s cli c,
  exited st = None -> leaderpc st = L_return ->
  defers st = (repeat D_releaseIP n ++ [D_Session_Close s; D_exit])%list ->
  mainpc st = M_recv cli ->
  let st' := run flags (repeat (RunLeader c) n) st in
  exited st' = None /\ leaderpc st' = L_return /\
  defers st' = [D_Session_Close s; D_exit] /\ mainpc st' = M_recv cli /\
  released st' = (released st + n)%nat /\
  exists t, trace st' = (trace st ++ map (pair leader_g) t)%list /\
            count is_release_call t = n /\ count is_control t = 0%nat.
Proof.
  induction n as [|n IH]; intros st s cli c Hex Hpc Hds Hm; cbn [repeat run].
  - cbv zeta. rewrite Nat.add_0_r. repeat split; auto.
    exists []. rewrite app_nil_r. repeat split.
  - destruct st as [w tr ex mpc lpc ds spc cd qc sc nt].
    cbn [exited leaderpc defers mainpc] in Hex, Hpc, Hds, Hm. subst.
    pose proof (releaseIP_counts w) as (R1 & R2 & R3).
    set (st1 := mkState (post (releaseIP flags w))
                  (tr ++ map (pair leader_g) (emitted (releaseIP flags w)))
                  None (M_recv cli) L_return
                  (repeat D_releaseIP n ++ [D_Session_Close s; D_exit])
                  spc cd qc sc nt).
    match goal with |- context [run _ _ ?x] => change x with st1 end.
    specialize (IH st1 s cli c eq_refl eq_refl eq_refl eq_refl).
    cbv zeta in IH. destruct IH as (I1 & I2 & I3 & I4 & I5 & t & I6 & I7 & I8).
    cbv zeta. repeat split; auto.
    + rewrite I5. unfold released, st1. proj. tids. rewrite R1. lia.
    + exists (emitted (releaseIP flags w) ++ t)%list.
      rewrite I6. unfold st1. proj. rewrite map_app, <- app_assoc.
      split; [reflexivity|]. rewrite !count_app, R1, R3, I7, I8. split; reflexivity.
Qed.

Lemma unwind_frame st s cli c :
  exited st = None -> leaderpc st = L_return ->
  defers st = [D_Session_Close s; D_exit] -> mainpc st = M_recv cli ->
  let st' := run flags (repeat (RunLeader c) 3) st in
  exited st' = None /\ leaderpc st' = L_done /\ defers st' = [] /\
  mainpc st' = M_close cli 0 /\ released st' = released st /\
  trace st' =
    (trace st ++ [(leader_g, Ext call_Session_Close); (leader_g, SendExit 0)])%list.
Proof.
  destruct st as [w tr ex mpc lpc ds spc cd qc sc nt].
  cbn [exited leaderpc defers mainpc]. intros -> -> -> ->.
  cbv zeta. unfold released. cbn. rewrite <- app_assoc. tids.
  repeat split.
  rewrite !filter_app, !map_app, !filter_app, !length_app. cbn. lia.
Qed.
(** *** A signal nobody reads *)

Lemma step_main_chan c st :
  step_main flags (set_signalChan c st) =
  option_map (set_signalChan c) (step_main flags st).
Proof.
  destruct st as [w tr ex mpc lpc ds spc cd qc sc nt].
  unfold step_main. cbn [mainpc set_signalChan].
  destruct mpc; proj; cbn [option_map]; try reflexivity;
    repeat match goal with
    | |- context [if ?b then _ else _] => destruct b
    | |- context [match ?x with _ => _ end] => destruct x
    end; reflexivity.
Qed.

Lemma step_leader_chan k c st :
  step_leader flags k (set_signalChan c st) =
  option_map (set_signalChan c) (step_leader flags k st).
Proof.
  destruct st as [w tr ex mpc lpc ds spc cd qc sc nt].
  unfold step_leader. cbn [leaderpc set_signalChan].
  destruct lpc; proj; cbn [option_map]; try reflexivity;
    repeat match goal with
    | |- context [if ?b then _ else _] => destruct b
    | |- context [match ?x with _ => _ end] => destruct x
    end; reflexivity.
Qed.

Lemma step_signals_chan c st :
  consumed (sigpc st) = true ->
  step_signals (set_signalChan c st) =
  option_map (set_signalChan c) (step_signals st).
Proof.
  destruct st as [w tr ex mpc lpc ds spc cd qc sc nt].
  unfold step_signals. cbn [sigpc set_signalChan].
  destruct spc; intros H; try discriminate H; reflexivity.
Qed.

Lemma reading_over_step l st st' :
  reading_over st -> step flags l st = Some st' -> reading_over st'.
Proof.
  unfold reading_over, step.
  destruct st as [w tr ex mpc lpc ds spc cd qc sc nt]. cbn [exited].
  destruct ex; [discriminate|].
  cbn [sigpc mainpc]. intros (Hc & Hb).
  destruct l as [|k| |s|i].
  - unfold step_main. cbn [mainpc].
    destruct mpc; try discriminate Hb; proj; step_cases; proj; auto.
  - unfold step_leader. cbn [leaderpc].
    destruct lpc; proj; step_cases; proj; auto.
  - unfold step_signals. cbn [sigpc].
    destruct spc; try discriminate Hc; proj; step_cases; proj; auto.
  - unfold deliver. proj. step_cases; proj; auto.
  - intros [= <-]. proj. auto.
Qed.

Lemma next_chan l c st :
  reading_over st ->
  exists c', next flags l (set_signalChan c st) =
             set_signalChan c' (next flags l st).
Proof.
  intros (Hc & _). unfold next, step.
  replace (exited (set_signalChan c st)) with (exited st)
    by (destruct st; reflexivity).
  destruct (exited st) eqn:Hex; [exists c; reflexivity|].
  destruct l as [|k| |s|i].
  - rewrite step_main_chan. destruct (step_main flags st); cbn [option_map];
      eauto.
  - rewrite step_leader_chan. destruct (step_leader flags k st);
      cbn [option_map]; eauto.
  - rewrite (step_signals_chan _ _ Hc). destruct (step_signals st);
      cbn [option_map]; eauto.
  - destruct st as [w tr ex mpc lpc ds spc cd qc sc nt].
    unfold deliver. proj. destruct nt.
    + destruct c, sc; eexists; reflexivity.
    + exists c. reflexivity.
  - exists c. destruct st; reflexivity.
Qed.

Lemma run_chan script : forall st c,
  reading_over st ->
  forget_signalChan (run flags script (set_signalChan c st)) =
  forget_signalChan (run flags script st).
Proof.
  induction script as [|l rest IH]; intros st c H; cbn [run].
  - destruct st; reflexivity.
  - destruct (next_chan l c st H) as (c' & ->). apply IH.
    unfold next. destruct (step flags l st) eqn:E; [|exact H].
    eapply reading_over_step; eauto.
Qed.

(** *** The claims about the process *)

(** C1 (amended).  A release obligation is deferred exactly when
    [ensureIP] reports a fresh addition, so obligations can stack: along
    every schedule the obligations still pending plus the release calls
    already made by the leadership goroutine equal the number of fresh
    additions it has reported.  Until the goroutine returns it has made
    no release call, and all of them are pending; once it has completed,
    none is pending and it has made one release call per fresh addition,
    hence none if it never added the address.  A confirmation that finds
    the address present defers nothing. *)
Theorem release_obligations_follow_fresh_additions
  (w : World) (script : list Label) :
  let st := run flags script (init w) in
  (pending_releases (defers st) + released st = fresh st)%nat /\
  (returning (leaderpc st) = false ->
     released st = 0%nat /\ pending_releases (defers st) = fresh st) /\
  (leaderpc st = L_done ->
     pending_releases (defers st) = 0%nat /\ released st = fresh st) /\
  (forall e c vaddr vlink,
     exited st = None -> leaderpc st = L_ensure e ->
     address_present flags (world st) vaddr vlink ->
     defers (next flags (RunLeader c) st) = defers st).
Proof.
  cbv zeta.
  destruct (obligations_balanced_run w script) as (Hb & Hr & Hd & _).
  split; [exact Hb|]. split; [|split].
  - intros H. specialize (Hr H). rewrite Hr, Nat.add_0_r in Hb. auto.
  - intros H. specialize (Hd H). rewrite Hd in *. cbn in Hb. auto.
  - intros e c vaddr vlink Hex Hpc Hp.
    destruct (run flags script (init w)) as [w' tr ex mpc lpc ds spc cd qc sc nt].
    cbn [exited leaderpc world] in *. subst.
    unfold next, step, step_leader. proj.
    rewrite (ensureIP_when_present _ _ _ _ Hp). reflexivity.
Qed.

Lemma pending_releases_frames n s :
  pending_releases (repeat D_releaseIP n ++ [D_Session_Close s; D_exit])%list = n.
Proof.
  unfold pending_releases. rewrite filter_app, length_app. cbn [filter length].
  rewrite Nat.add_0_r. induction n as [|n IH]; [reflexivity|].
  cbn [repeat filter length]. f_equal. exact IH.
Qed.

Lemma main_reaches_recv st :
  exited st = None -> spawned (mainpc st) = true ->
  let st' := run flags [RunMain; RunMain] st in
  exited st' = None /\ leaderpc st' = leaderpc st /\ defers st' = defers st /\
  (exists cli, mainpc st' = M_recv cli) /\
  exists t, trace st' = (trace st ++ map (pair main_g) t)%list /\
            count is_control t = 0%nat.
Proof.
  destruct st as [w tr ex mpc lpc ds spc cd qc sc nt].
  cbn [exited mainpc leaderpc defers trace]. intros -> H.
  destruct mpc; try discriminate H; cbv zeta; cbn; repeat split; eauto.
  - eexists [_]. split; reflexivity.
  - exists []. rewrite app_nil_r. split; reflexivity.
  - exists []. rewrite app_nil_r. split; reflexivity.
Qed.

Lemma Fatal_is_control e : is_Fatal e = true -> is_control e = true.
Proof. destruct e as [[]| | | | | |]; try discriminate; reflexivity. Qed.

(** C7.  When a campaign of the leadership loop resolves with
    [context.Canceled], nothing is logged as an error and the goroutine
    returns: with [main] at its receive, the deferred calls run, every
    pending release first, then the session is closed and the completion
    code 0 is handed to [main].  When it resolves with any other error
    the process exits at once with code 1 through [log.Fatal]: the trace
    ends there, no deferred call runs, nothing is sent on [exit], and no
    later step of any schedule changes the state. *)
Theorem campaign_cancelled_or_fatal
  (w : World) (script : list Label) (e : Election) (c : Case)
  (err : error) (w1 : World) :
  let st := run flags script (init w) in
  exited st = None -> leaderpc st = L_campaign e ->
  Election_Campaign e (ctx_done st) (member flags) (world st)
    = Some (Some err, w1) ->
  let st1 := next flags (RunLeader c) st in
  (err = context_Canceled ->
     exited st1 = None /\ leaderpc st1 = L_return /\
     defers st1 = defers st /\
     trace st1 =
       (trace st ++ [(leader_g, Ext (call_Campaign (member flags)))])%list /\
     let n := pending_releases (defers st) in
     let st2 :=
       run flags ([RunMain; RunMain] ++ repeat (RunLeader c) (n + 3))%list st1 in
     exited st2 = None /\ leaderpc st2 = L_done /\ defers st2 = [] /\
     released st2 = n /\
     exists cli t,
       mainpc st2 = M_close cli 0 /\
       trace st2 =
         (trace st1 ++ t ++ [(leader_g, Ext call_Session_Close);
                             (leader_g, SendExit 0)])%list /\
       count is_release_call (by_tid leader_g t) = n /\
       count is_Fatal (events t) = 0%nat) /\
  (err <> context_Canceled ->
     exited st1 = Some (ExitCode 1) /\
     trace st1 =
       (trace st ++ [(leader_g, Ext (call_Campaign (member flags)));
                     (leader_g, Log FatalLevel (Error err));
                     (leader_g, OsExit 1)])%list /\
     forall script', run flags script' st1 = st1).
Proof.
  cbv zeta.
  pose proof (leader_frames_run w script) as (Hf & _).
  pose proof (obligations_balanced_run w script) as (_ & Hr & _).
  destruct (run flags script (init w))
    as [w' tr ex mpc lpc ds spc cd qc sc nt].
  cbn [exited leaderpc world ctx_done defers trace mainpc] in *.
  intros -> -> Hcamp. cbn [returning] in Hr. specialize (Hr eq_refl).
  destruct Hf as ((n & s & ->) & Hsp).
  match goal with |- context [next flags (RunLeader c) ?x] =>
    set (st0 := x) in * end.
  assert (Hnext : next flags (RunLeader c) st0 =
                  let st' := record leader_g [Ext (call_Campaign (member flags))]
                               (set_world w1 st0) in
                  if is_Canceled err then set_leaderpc L_return st'
                  else log_Fatal leader_g err st').
  { unfold next, step, step_leader, st0. proj. rewrite Hcamp.
    destruct (is_Canceled err); reflexivity. }
  rewrite Hnext. clear Hnext. cbv zeta. unfold st0 in *. clear st0. proj.
  rewrite pending_releases_frames.
  split.
  - intros ->. cbn [is_Canceled]. proj.
    do 4 (split; [reflexivity|]).
    rewrite run_app.
    match goal with |- context [run flags [RunMain; RunMain] ?x] =>
      set (st1 := x) end.
    destruct (main_reaches_recv st1 eq_refl Hsp)
      as (M1 & M2 & M3 & (cli & M4) & tm & M5 & M6); cbv zeta in *.
    destruct (unwind_releases n _ s cli c M1 M2 M3 M4)
      as (U1 & U2 & U3 & U4 & U5 & tu & U6 & U7 & U8); cbv zeta in *.
    rewrite repeat_app, run_app.
    destruct (unwind_frame _ s cli c U1 U2 U3 U4)
      as (V1 & V2 & V3 & V4 & V5 & V6); cbv zeta in *.
    do 3 (split; [assumption|]). split.
    + rewrite V5, U5. unfold released. rewrite M5. tids.
      unfold st1. proj. tids. unfold released in Hr. proj. rewrite Hr.
      cbn. reflexivity.
    + exists cli, (map (pair main_g) tm ++ map (pair leader_g) tu)%list.
      split; [exact V4|]. rewrite V6, U6, M5. unfold st1. proj.
      rewrite <- !app_assoc.
      split; [reflexivity|]. tids. etids.
      rewrite (subcount _ _ _ Fatal_is_control M6),
              (subcount _ _ _ Fatal_is_control U8). auto.
  - intros Hne. destruct err as [|msg]; [congruence|]. cbn [is_Canceled]. proj.
    rewrite <- app_assoc. repeat split.
    intros script'. apply run_exited with (x := ExitCode 1). reflexivity.
Qed.

(** C8.  Along every schedule the signal goroutine calls [cancel()] and
    [close(quit)] at most once each: not at all before it has taken a
    signal, and exactly once each when it is done.  Once a signal is in
    [signalChan], its next three steps are enabled and do exactly that.
    [main] is blocked at its receive until the leadership goroutine sends
    its completion code; the code it holds is 0, it exits with it, and a
    clean exit is preceded in the trace by that send.  A further signal
    delivered after the first was taken changes nothing but the content
    of [signalChan], which nobody reads any more. *)
Theorem shutdown_coordinator_acts_once (w : World) (script : list Label) :
  let st := run flags script (init w) in
  ((count is_Cancel (events (trace st)) <= 1)%nat /\
   (count is_CloseQuit (events (trace st)) <= 1)%nat) /\
  (consumed (sigpc st) = false ->
     count is_Cancel (events (trace st)) = 0%nat /\
     count is_CloseQuit (events (trace st)) = 0%nat /\
     ctx_done st = false /\ quit_closed st = false) /\
  (sigpc st = S_done ->
     count is_Cancel (events (trace st)) = 1%nat /\
     count is_CloseQuit (events (trace st)) = 1%nat /\
     ctx_done st = true /\ quit_closed st = true) /\
  (forall s,
     exited st = None -> sigpc st = S_recv -> signalChan st = Some s ->
     let st3 := run flags [RunSignals; RunSignals; RunSignals] st in
     sigpc st3 = S_done /\ ctx_done st3 = true /\ quit_closed st3 = true /\
     trace st3 =
       (trace st ++
        [(signals_g, Log InfoLevel ("Received " ++ Signal_String s));
         (signals_g, Cancel); (signals_g, CloseQuit)])%list) /\
  (forall cli, mainpc st = M_recv cli -> step flags RunMain st = None) /\
  (forall code, main_code (mainpc st) = Some code ->
     code = 0%Z /\ In (leader_g, SendExit 0) (trace st) /\
     (exited st = None ->
      exited (run flags [RunMain; RunMain; RunMain] st) = Some (ExitCode 0))) /\
  (exited st = Some (ExitCode 0) -> version flags = false ->
     exists t, trace st = (t ++ [(main_g, OsExit 0)])%list /\
               In (leader_g, SendExit 0) t) /\
  (consumed (sigpc st) = true ->
     forall s script',
       forget_signalChan (run flags script' (next flags (Deliver s) st)) =
       forget_signalChan (run flags script' st)).
Proof.
  cbv zeta.
  pose proof (coordinator_state_run w script) as (Hc & Hb & Hn & _).
  pose proof (exit_after_completion_run w script) as (Hk & He).
  destruct (run flags script (init w))
    as [w' tr ex mpc lpc ds spc cd qc sc nt].
  cbn [exited sigpc mainpc trace ctx_done quit_closed signalChan notified] in *.
  cbv zeta in Hc.
  repeat apply conj.
  - destruct spc; destruct Hc as (-> & _); lia.
  - destruct spc; destruct Hc as (_ & -> & _); lia.
  - destruct spc; intros H; try discriminate H; exact Hc.
  - intros ->. exact Hc.
  - intros s -> -> ->. cbn. rewrite <- !app_assoc. repeat split.
  - intros cli ->. unfold step. cbn [exited]. destruct ex; reflexivity.
  - intros code H. destruct (Hk _ H) as (-> & Hin).
    split; [reflexivity|]. split; [exact Hin|]. intros ->.
    destruct mpc; try discriminate H; cbn [main_code] in H;
      injection H as ->; reflexivity.
  - intros H Hv. destruct (He H) as [Hv' | Ht]; [congruence | exact Ht].
  - intros Hcons s script'.
    assert (Hro : reading_over
                    (mkState w' tr ex mpc lpc ds spc cd qc sc nt)).
    { split; [exact Hcons|]. cbn [mainpc].
      destruct (before_signals mpc) eqn:E; [|reflexivity].
      rewrite (Hb eq_refl) in Hcons. discriminate. }
    assert (Hnt : nt = true).
    { apply Hn. intros ->. discriminate. }
    subst nt. unfold next at 1. unfold step. cbn [exited].
    destruct ex; [reflexivity|]. unfold deliver. proj.
    destruct sc.
    + reflexivity.
    + apply (run_chan script' _ (Some s) Hro).
Qed.

(** C9.  Without [-version], the first two steps of [main] call
    [releaseIP] once and go on to the TLS configuration in a state that
    does not depend on the error [releaseIP] returned.  That call is one
    release attempt and no call to the coordination service; and in
    every schedule the first call to the coordination service is
    preceded by exactly one release attempt. *)
Theorem startup_release_once_outcome_discarded (w : World) :
  version flags = false ->
  run flags [RunMain; RunMain] (init w) =
    mkState (post (releaseIP flags w))
            (map (pair main_g) (emitted (releaseIP flags w)))
            None M_tls L_idle [] S_idle false false None false /\
  count is_release_call (emitted (releaseIP flags w)) = 1%nat /\
  count is_coordination (emitted (releaseIP flags w)) = 0%nat /\
  (forall script t1 ev t2,
     trace (run flags script (init w)) = (t1 ++ ev :: t2)%list ->
     is_coordination (snd ev) = true ->
     count is_coordination (events t1) = 0%nat ->
     count is_release_call (events t1) = 1%nat).
Proof.
  intros Hv.
  pose proof (releaseIP_counts w) as (R1 & _ & _).
  pose proof (releaseIP_no_coordination w) as R2.
  split; [|split; [exact R1|split; [exact R2|]]].
  - cbn [run]. unfold next, step, step_main. cbn [init exited mainpc].
    rewrite Hv. proj. reflexivity.
  - intros script t1 ev t2 Ht Hev Hc.
    destruct (startup_shape_run w script)
      as [(Hc' & _) | (t1' & ev' & t2' & Ht' & Hev' & Hc1 & Hr1)].
    + rewrite Ht, events_app, count_app in Hc'. unfold events in Hc'.
      cbn [map] in Hc'. rewrite count_cons, Hev in Hc'. lia.
    + rewrite Ht in Ht'.
      assert (t1 = t1') as ->; [|exact Hr1].
      apply (first_occurrence (fun x => is_coordination (snd x))
               _ _ _ _ _ _ Ht'); auto;
        apply count_zero_forallb; assumption.
Qed.

(** C2 (amended).  With a VIP string that does not parse, the release
    at startup returns the parse error and [main] drops it: nothing is
    reported and [main] goes on to the TLS configuration.  The error is
    reported by [log.Fatal], with exit code 1, by the first [ensureIP],
    that is after [client.New], [NewSession] and a campaign. *)
Theorem invalid_vip_reported_after_campaign (w : World) (err : error) :
  version flags = false ->
  netlink_ParseAddr (vip flags) = inl err ->
  (val (releaseIP flags w) = Some err /\
   run flags [RunMain; RunMain] (init w) =
     mkState w
       [(main_g, Log DebugLevel "Releasing IP address");
        (main_g, Ext (call_ParseAddr (vip flags)))]
       None M_tls L_idle [] S_idle false false None false) /\
  (forall script e c,
     let st := run flags script (init w) in
     exited st = None -> leaderpc st = L_ensure e ->
     let st1 := next flags (RunLeader c) st in
     exited st1 = Some (ExitCode 1) /\
     trace st1 =
       (trace st ++
        [(leader_g, Log DebugLevel "Ensuring IP address");
         (leader_g, Ext (call_ParseAddr (vip flags)));
         (leader_g, Log FatalLevel (Error err));
         (leader_g, OsExit 1)])%list /\
     In (main_g, Ext (call_client_New
                        (strings_Split (etcdaddress flags) ",") (5 * Second)))
        (trace st) /\
     In (leader_g, Ext call_NewSession) (trace st) /\
     In (leader_g, Ext (call_Campaign (member flags))) (trace st)).
Proof.
  intros Hv Hp. split.
  - rewrite (releaseIP_bad_vip _ w _ Hp). split; [reflexivity|].
    cbn [run]. unfold next, step, step_main. cbn [init exited mainpc].
    rewrite Hv. unfold init. proj. rewrite (releaseIP_bad_vip _ w _ Hp).
    reflexivity.
  - intros script e c. cbv zeta.
    pose proof (contacts_made_run w script) as (Hc & Hg & Hs & He).
    destruct (run flags script (init w))
      as [w' tr ex mpc lpc ds spc cd qc sc nt].
    cbn [exited leaderpc mainpc trace] in *. intros -> ->.
    unfold next, step, step_leader. proj.
    rewrite (ensureIP_bad_vip _ w' _ Hp). proj. rewrite <- app_assoc.
    split; [reflexivity|]. split; [reflexivity|].
    split; [|split; [apply Hs; reflexivity | eapply He; reflexivity]].
    apply Hc. destruct (before_client mpc) eqn:E; [|reflexivity].
    assert (Hgo : before_go mpc = true) by (destruct mpc; try discriminate E; reflexivity).
    discriminate (Hg Hgo).
Qed.

(** *** Further properties of the IP state manager *)

Lemma netcall_lookup p :
  (forall e, is_netcall e = true -> p e = false) ->
  forall e, is_lookup e = true -> p e = false.
Proof. intros H e He. apply H. unfold is_netcall. rewrite He. reflexivity. Qed.

Lemma count_announce_zero p n ip iface :
  (forall e, is_netcall e = true -> p e = false) ->
  count p (announce n ip iface) = 0%nat.
Proof.
  intros H. rewrite count_announce, !count_cons.
  rewrite (H (Ext (call_GratuitousArp ip iface)) eq_refl),
          (H (Ext (call_Sleep (1 * Second))) eq_refl).
  cbn. lia.
Qed.

(** How often a predicate that is blind to the netlink, ARP and sleep
    calls sees something in what [releaseIP] and [ensureIP] write. *)
Lemma releaseIP_count p w :
  (forall e, is_netcall e = true -> p e = false) ->
  p (Log DebugLevel "IP address not found") = false ->
  p (Log InfoLevel "IP address released") = false ->
  count p (emitted (releaseIP flags w)) =
    b2n (p (Log DebugLevel "Releasing IP address")).
Proof.
  intros H H1 H2. rewrite releaseIP_unfold. cbv zeta.
  pose proof (hasIP_emitted_only_lookups _ w (netcall_lookup _ H)) as Hh.
  destruct (val (hasIP flags w)) as [err|[[[] vaddr] vlink]];
    [| destruct (fst (netlink_AddrDel vlink vaddr (post (hasIP flags w)))) |];
    cbn [emitted]; rewrite ?count_app, !count_cons, Hh, ?H1, ?H2;
    rewrite ?(H (Ext (call_AddrDel vlink vaddr)) eq_refl);
    destruct (p (Log DebugLevel "Releasing IP address")); reflexivity.
Qed.

Lemma ensureIP_count p w :
  (forall e, is_netcall e = true -> p e = false) ->
  p (Log DebugLevel "IP address already set") = false ->
  p (Log InfoLevel "IP address set, sending gratuitous ARPs") = false ->
  count p (emitted (ensureIP flags w)) =
    b2n (p (Log DebugLevel "Ensuring IP address")).
Proof.
  intros H H1 H2. rewrite ensureIP_unfold. cbv zeta.
  pose proof (hasIP_emitted_only_lookups _ w (netcall_lookup _ H)) as Hh.
  destruct (val (hasIP flags w)) as [err|[[[] vaddr] vlink]];
    [| | destruct (fst (netlink_AddrAdd vlink vaddr (post (hasIP flags w))))];
    cbn [emitted];
    rewrite ?arp_loop_emitted, ?count_app, ?(count_announce_zero _ _ _ _ H),
      !count_cons, Hh, ?H1, ?H2;
    rewrite ?(H (Ext (call_AddrAdd vlink vaddr)) eq_refl);
    destruct (p (Log DebugLevel "Ensuring IP address")); reflexivity.
Qed.

(** The mutation calls of the two functions, by what [hasIP] answers. *)
Lemma releaseIP_mutations w :
  filter is_mutation (emitted (releaseIP flags w)) =
  match val (hasIP flags w) with
  | inr (true, vaddr, vlink) => [Ext (call_AddrDel vlink vaddr)]
  | _ => []
  end.
Proof.
  rewrite releaseIP_unfold. cbv zeta.
  assert (Hh : filter is_mutation (emitted (hasIP flags w)) = []).
  { pose proof (hasIP_emitted_only_lookups is_mutation w) as H.
    unfold count in H. apply length_zero_iff_nil. apply H.
    intros e He. destruct e as [| |[]| | | |]; try discriminate; reflexivity. }
  destruct (val (hasIP flags w)) as [err|[[[] vaddr] vlink]];
    [| destruct (fst (netlink_AddrDel vlink vaddr (post (hasIP flags w)))) |];
    cbn [emitted]; rewrite ?filter_app; cbn [filter is_mutation];
    rewrite Hh; reflexivity.
Qed.

Lemma filter_announce_mutation n ip iface :
  filter is_mutation (announce n ip iface) = [].
Proof. induction n as [|n IH]; [reflexivity|]. cbn. exact IH. Qed.

Lemma ensureIP_mutations w :
  filter is_mutation (emitted (ensureIP flags w)) =
  match val (hasIP flags w) with
  | inr (false, vaddr, vlink) => [Ext (call_AddrAdd vlink vaddr)]
  | _ => []
  end.
Proof.
  rewrite ensureIP_unfold. cbv zeta.
  assert (Hh : filter is_mutation (emitted (hasIP flags w)) = []).
  { pose proof (hasIP_emitted_only_lookups is_mutation w) as H.
    unfold count in H. apply length_zero_iff_nil. apply H.
    intros e He. destruct e as [| |[]| | | |]; try discriminate; reflexivity. }
  destruct (val (hasIP flags w)) as [err|[[[] vaddr] vlink]];
    [| | destruct (fst (netlink_AddrAdd vlink vaddr (post (hasIP flags w))))];
    cbn [emitted]; rewrite ?arp_loop_emitted, ?filter_app;
    cbn [filter is_mutation]; rewrite ?filter_announce_mutation, Hh;
    reflexivity.
Qed.

(** An error returned by [releaseIP] is the error of [hasIP], with the
    world untouched and no removal attempted, or it is the error of the
    one [AddrDel] call made on an address found present; in neither
    case is a release logged. *)
Theorem releaseIP_error_origin (w : World) (err : error) :
  val (releaseIP flags w) = Some err ->
  ~ In (Log InfoLevel "IP address released") (emitted (releaseIP flags w)) /\
  ((val (hasIP flags w) = inl err /\
    post (releaseIP flags w) = w /\
    filter is_mutation (emitted (releaseIP flags w)) = []) \/
   (exists vaddr vlink,
      val (hasIP flags w) = inr (true, vaddr, vlink) /\
      netlink_AddrDel vlink vaddr w = (Some err, post (releaseIP flags w)) /\
      filter is_mutation (emitted (releaseIP flags w)) =
        [Ext (call_AddrDel vlink vaddr)])).
Proof.
  rewrite releaseIP_mutations. rewrite releaseIP_unfold. cbv zeta.
  pose proof (hasIP_post flags w) as Hw.
  assert (Hn : ~ In (Log InfoLevel "IP address released")
                    (emitted (hasIP flags w))).
  { intros Hin. pose proof (hasIP_emitted_only_lookups (fun e => negb (is_lookup e)) w) as H.
    assert (H0 : count (fun e => negb (is_lookup e)) (emitted (hasIP flags w)) = 0%nat).
    { apply H. intros e ->. reflexivity. }
    unfold count in H0. apply length_zero_iff_nil in H0.
    assert (Hf : In (Log InfoLevel "IP address released")
                    (filter (fun e => negb (is_lookup e)) (emitted (hasIP flags w)))).
    { apply filter_In. split; [exact Hin | reflexivity]. }
    rewrite H0 in Hf. exact Hf. }
  rewrite Hw.
  destruct (val (hasIP flags w)) as [e|[[[] vaddr] vlink]] eqn:Hh.
  - cbn [val post emitted]. intros [= ->]. split.
    + intros [H|H]; [discriminate H | exact (Hn H)].
    + left. auto.
  - destruct (netlink_AddrDel vlink vaddr w) as [[e|] w1] eqn:Hd;
      cbn [fst snd val post emitted]; [|discriminate].
    intros [= ->]. split.
    + intros [H|H]; [discriminate H|]. apply in_app_or in H.
      destruct H as [H|[H|[]]]; [exact (Hn H) | discriminate H].
    + right. exists vaddr, vlink. auto.
  - cbn [val]. discriminate.
Qed.
(** An error returned by [ensureIP] comes with [false] and without a
    single announcement.  It is the error of [hasIP], with the world
    untouched and no mutation attempted, or the error of the one
    [AddrAdd] call made on an address found absent. *)
Theorem ensureIP_error_origin (w : World) (err : error) :
  snd (val (ensureIP flags w)) = Some err ->
  fst (val (ensureIP flags w)) = false /\
  count is_arp (emitted (ensureIP flags w)) = 0%nat /\
  count is_newly_added (emitted (ensureIP flags w)) = 0%nat /\
  ((val (hasIP flags w) = inl err /\
    post (ensureIP flags w) = w /\
    filter is_mutation (emitted (ensureIP flags w)) = []) \/
   (exists vaddr vlink,
      val (hasIP flags w) = inr (false, vaddr, vlink) /\
      netlink_AddrAdd vlink vaddr w = (Some err, post (ensureIP flags w)) /\
      filter is_mutation (emitted (ensureIP flags w)) =
        [Ext (call_AddrAdd vlink vaddr)])).
Proof.
  rewrite ensureIP_mutations. rewrite ensureIP_unfold. cbv zeta.
  pose proof (hasIP_post flags w) as Hw.
  pose proof (hasIP_emitted_only_lookups is_arp w) as Ha.
  pose proof (hasIP_emitted_only_lookups _ w lookup_not_newly) as Hn.
  assert (Ha' : count is_arp (emitted (hasIP flags w)) = 0%nat).
  { apply Ha. intros e He. destruct e as [| |[]| | | |]; try discriminate;
      reflexivity. }
  rewrite Hw.
  destruct (val (hasIP flags w)) as [e|[[[] vaddr] vlink]] eqn:Hh.
  - cbn [val post emitted fst snd]. intros [= ->].
    rewrite !count_cons, Ha', Hn. repeat split. left. auto.
  - cbn [val snd]. discriminate.
  - destruct (netlink_AddrAdd vlink vaddr w) as [[e|] w1] eqn:Hd;
      cbn [fst snd val post emitted]; [|discriminate].
    intros [= ->]. rewrite !count_app, !count_cons, Ha', Hn.
    repeat split. right. exists vaddr, vlink. auto.
Qed.

Lemma count_filter_sub (p q : Event -> bool) l :
  (forall e, p e = true -> q e = true) ->
  count p (filter q l) = count p l.
Proof.
  intros H. unfold count. induction l as [|a l IH]; [reflexivity|].
  cbn [filter]. destruct (q a) eqn:Hq; cbn [filter].
  - destruct (p a); cbn [length]; congruence.
  - destruct (p a) eqn:Hp; [rewrite (H _ Hp) in Hq; discriminate | exact IH].
Qed.

Lemma AddrAdd_is_mutation e : is_AddrAdd e = true -> is_mutation e = true.
Proof. destruct e as [| |[]| | | |]; try discriminate; reflexivity. Qed.

Lemma AddrDel_is_mutation e : is_AddrDel e = true -> is_mutation e = true.
Proof. destruct e as [| |[]| | | |]; try discriminate; reflexivity. Qed.

Lemma ensureIP_adds w :
  count is_AddrDel (emitted (ensureIP flags w)) = 0%nat /\
  (count is_newly_added (emitted (ensureIP flags w))
   <= count is_AddrAdd (emitted (ensureIP flags w)) <= 1)%nat.
Proof.
  rewrite <- (count_filter_sub _ _ _ AddrDel_is_mutation).
  rewrite <- (count_filter_sub _ _ (emitted (ensureIP flags w)) AddrAdd_is_mutation).
  rewrite ensureIP_mutations.
  pose proof (ensureIP_counts w) as (_ & E2 & _ & _). rewrite E2.
  rewrite ensureIP_unfold. cbv zeta.
  destruct (val (hasIP flags w)) as [e|[[[] vaddr] vlink]];
    [| | destruct (fst (netlink_AddrAdd vlink vaddr (post (hasIP flags w))))];
    cbn; lia.
Qed.

Lemma releaseIP_dels w :
  count is_AddrAdd (emitted (releaseIP flags w)) = 0%nat /\
  (count is_AddrDel (emitted (releaseIP flags w)) <= 1)%nat.
Proof.
  rewrite <- (count_filter_sub _ _ _ AddrAdd_is_mutation).
  rewrite <- (count_filter_sub _ _ (emitted (releaseIP flags w)) AddrDel_is_mutation).
  rewrite releaseIP_mutations.
  destruct (val (hasIP flags w)) as [e|[[[] vaddr] vlink]]; cbn; lia.
Qed.

(** [ensureIP] never calls [AddrDel] and calls [AddrAdd] at most once;
    [releaseIP] never calls [AddrAdd], never announces, and calls
    [AddrDel] at most once.  A call of either that makes no mutation
    call leaves the world as it found it. *)
Theorem mutation_discipline (w : World) :
  (count is_AddrDel (emitted (ensureIP flags w)) = 0%nat /\
   (count is_AddrAdd (emitted (ensureIP flags w)) <= 1)%nat /\
   (filter is_mutation (emitted (ensureIP flags w)) = [] ->
    post (ensureIP flags w) = w /\
    count is_arp (emitted (ensureIP flags w)) = 0%nat)) /\
  (count is_AddrAdd (emitted (releaseIP flags w)) = 0%nat /\
   (count is_AddrDel (emitted (releaseIP flags w)) <= 1)%nat /\
   count is_arp (emitted (releaseIP flags w)) = 0%nat /\
   (filter is_mutation (emitted (releaseIP flags w)) = [] ->
    post (releaseIP flags w) = w)).
Proof.
  pose proof (ensureIP_adds w) as (A1 & A2).
  pose proof (releaseIP_dels w) as (D1 & D2).
  split; [split; [exact A1 | split; [lia|]] | split; [exact D1 | split; [exact D2 | split]]].
  - rewrite ensureIP_mutations, ensureIP_unfold. cbv zeta.
    pose proof (hasIP_post flags w) as Hw.
    pose proof (hasIP_emitted_only_lookups is_arp w) as Ha.
    assert (Ha' : count is_arp (emitted (hasIP flags w)) = 0%nat).
    { apply Ha. intros e He. destruct e as [| |[]| | | |]; try discriminate;
        reflexivity. }
    destruct (val (hasIP flags w)) as [e|[[[] vaddr] vlink]];
      try discriminate; cbn [post emitted]; intros _;
      rewrite ?count_app, !count_cons, Ha'; auto.
  - rewrite releaseIP_unfold. cbv zeta.
    pose proof (hasIP_emitted_only_lookups is_arp w) as Ha.
    assert (Ha' : count is_arp (emitted (hasIP flags w)) = 0%nat).
    { apply Ha. intros e He. destruct e as [| |[]| | | |]; try discriminate;
        reflexivity. }
    destruct (val (hasIP flags w)) as [e|[[[] vaddr] vlink]];
      [| destruct (fst (netlink_AddrDel vlink vaddr (post (hasIP flags w)))) |];
      cbn [emitted]; rewrite ?count_app, !count_cons, Ha'; reflexivity.
  - rewrite releaseIP_mutations, releaseIP_unfold. cbv zeta.
    pose proof (hasIP_post flags w) as Hw.
    destruct (val (hasIP flags w)) as [e|[[[] vaddr] vlink]];
      try discriminate; cbn [post]; auto.
Qed.

(** What [hasIP] answers depends on which addresses the OS lists, not
    on their order or on repetitions. *)
Theorem hasIP_order_insensitive
  (w w' : World) (vaddr : Addr) (vlink : Link) (addrs addrs' : list Addr) :
  resolves flags w vaddr vlink addrs ->
  resolves flags w' vaddr vlink addrs' ->
  (forall a, In a addrs <-> In a addrs') ->
  val (hasIP flags w) = val (hasIP flags w').
Proof.
  intros (Hp & Hl & Ha) (_ & Hl' & Ha') Hsame.
  rewrite !hasIP_unfold, Hp, Hl, Hl', Ha, Ha'. cbn [val].
  assert (range_addrs vaddr addrs = range_addrs vaddr addrs') as ->;
    [|reflexivity].
  destruct (range_addrs vaddr addrs') eqn:E.
  - apply range_addrs_member in E. apply range_addrs_member.
    destruct E as (a & Hin & He). exists a. split; [apply Hsame|]; assumption.
  - apply range_addrs_not_member in E. apply range_addrs_not_member.
    intros (a & Hin & He). apply E. exists a. split; [apply Hsame|]; assumption.
Qed.

(** *** Further invariants of the process *)

Lemma version_only_step l st st' :
  version flags = true ->
  version_only st -> step flags l st = Some st' -> version_only st'.
Proof.
  intros Hv. unfold version_only, step.
  destruct st as [w tr ex mpc lpc ds spc cd qc sc nt]. cbn [exited].
  destruct ex; [discriminate|].
  cbn [trace mainpc leaderpc sigpc defers exited].
  intros (-> & -> & -> & -> & H).
  destruct H as [(-> & _) | (_ & H)]; [|discriminate H].
  destruct l as [|c| |s|i].
  - unfold step_main. cbn [mainpc]. rewrite Hv. intros [= <-]. proj.
    repeat split. right. split; reflexivity.
  - discriminate.
  - discriminate.
  - unfold deliver. proj. step_cases; proj; repeat split; left; eauto.
  - intros [= <-]. proj. repeat split. left. auto.
Qed.

Lemma SendExit_is_control e : is_SendExit e = true -> is_control e = true.
Proof. destruct e; try discriminate; reflexivity. Qed.

Lemma netcall_not_coordination e :
  is_netcall e = true -> is_coordination e = false.
Proof. destruct e as [| |[]| | | |]; try discriminate; reflexivity. Qed.

Lemma filter_count_nil (p : Event -> bool) l :
  count p l = 0%nat -> filter p l = [].
Proof. unfold count. apply length_zero_iff_nil. Qed.

Ltac ftids :=
  rewrite ?events_app, ?filter_app, ?events_tagged.

Lemma contact_order_step l st st' :
  contact_order flags st -> step flags l st = Some st' ->
  contact_order flags st'.
Proof.
  unfold contact_order, step.
  destruct st as [w tr ex mpc lpc ds spc cd qc sc nt]. cbn [exited].
  destruct ex; [discriminate|].
  cbn [trace mainpc leaderpc].
  intros (Hg & Hm & Hc & Hs).
  specialize (Hc eq_refl).
  pose proof (ensureIP_counts w) as (_ & _ & E3 & _).
  pose proof (releaseIP_counts w) as (_ & _ & R3).
  pose proof (subcount _ _ _ SendExit_is_control E3) as E1.
  pose proof (subcount _ _ _ SendExit_is_control R3) as R1.
  pose proof (filter_count_nil _ _ (releaseIP_no_coordination w)) as R2.
  destruct l as [|c| |s|i].
  - unfold step_main. cbn [mainpc].
    destruct mpc; proj; step_cases; proj; ftids; etids;
      rewrite ?R1, ?R2, ?app_nil_r, ?Nat.add_0_r;
      try (pose proof (Hg eq_refl); subst lpc);
      (split; [|split; [|split]]); intros; try discriminate; auto;
      try (assert (returning lpc = true) by (apply Hm; discriminate);
           destruct lpc; discriminate);
      try (rewrite Hc by auto; reflexivity).
  - unfold step_leader. cbn [leaderpc].
    destruct lpc; proj; step_cases; proj; ftids; etids;
      rewrite ?E1, ?R1, ?app_nil_r, ?Nat.add_0_r;
      (split; [|split; [|split]]); intros; try discriminate; auto;
      try wrong_pc.
  - unfold step_signals. cbn [sigpc].
    destruct spc; proj; step_cases; proj; ftids; etids;
      rewrite ?app_nil_r, ?Nat.add_0_r;
      (split; [|split; [|split]]); intros; try discriminate; auto.
  - unfold deliver. proj. step_cases; proj;
      (split; [|split; [|split]]); intros; try discriminate; auto.
  - intros [= <-]. proj. auto.
Qed.

Lemma contact_order_run w script :
  contact_order flags (run flags script (init w)).
Proof.
  apply run_invariant; [intros; eapply contact_order_step; eauto|].
  repeat split; intros; try reflexivity. cbn in H. congruence.
Qed.

Ltac exit_case Hk :=
  try match goal with
      | H : Some (ExitCode _) = Some (ExitCode _) |- _ =>
          injection H as H; try subst
      end;
  try (pose proof (Hk _ eq_refl) as ?Hz; try subst; try discriminate);
  try solve [left; reflexivity
            | right; split; [reflexivity|];
              cbn [map]; eexists _, _, _; reflexivity].

Lemma fatal_short_of_return_step l st st' :
  fatal_short_of_return st -> step flags l st = Some st' ->
  fatal_short_of_return st'.
Proof.
  unfold fatal_short_of_return, step.
  destruct st as [w tr ex mpc lpc ds spc cd qc sc nt]. cbn [exited].
  destruct ex; [discriminate|].
  cbn [trace mainpc leaderpc].
  intros (_ & Hg & Hk & _).
  destruct l as [|c| |s|i].
  - unfold step_main. cbn [mainpc].
    destruct mpc; proj; step_cases; proj;
      try (pose proof (Hg eq_refl); subst lpc);
      (split; [|split; [|split]]); intros; try discriminate; auto;
      exit_case Hk.
  - unfold step_leader. cbn [leaderpc].
    destruct lpc; proj; step_cases; proj;
      (split; [|split; [|split]]); intros; try discriminate; auto;
      try wrong_pc; cbn [main_code] in *; try congruence; exit_case Hk.
  - unfold step_signals. cbn [sigpc].
    destruct spc; proj; step_cases; proj;
      (split; [|split; [|split]]); intros; try discriminate; auto.
  - unfold deliver. proj. step_cases; proj;
      (split; [|split; [|split]]); intros; try discriminate; auto.
  - intros [= <-]. proj.
    (split; [|split; [|split]]); intros; try discriminate; auto.
Qed.

Lemma fatal_short_of_return_run w script :
  fatal_short_of_return (run flags script (init w)).
Proof.
  apply run_invariant; [intros; eapply fatal_short_of_return_step; eauto|].
  repeat split; intros; try discriminate; reflexivity.
Qed.
Lemma mutations_accounted_step l st st' :
  mutations_accounted st -> step flags l st = Some st' ->
  mutations_accounted st'.
Proof.
  unfold mutations_accounted, released, fresh, step.
  destruct st as [w tr ex mpc lpc ds spc cd qc sc nt]. cbn [exited].
  destruct ex; [discriminate|].
  cbn [trace mainpc].
  intros (Ha & Hs & Hd & Hl & Hf & Hm).
  pose proof (ensureIP_counts w) as (E1 & _ & _ & _).
  pose proof (releaseIP_counts w) as (R1 & R2 & _).
  pose proof (ensureIP_adds w) as (A1 & A2).
  pose proof (releaseIP_dels w) as (D1 & D2).
  destruct l as [|c| |s|i].
  - unfold step_main. cbn [mainpc].
    destruct mpc; proj; step_cases; proj; tids; rewrite ?D1;
      cbn [count filter length is_AddrAdd is_AddrDel is_mutation];
      rewrite ?Nat.add_0_r; repeat split; auto; try lia.
  - unfold step_leader. cbn [leaderpc].
    destruct lpc; proj; step_cases; proj; tids; rewrite ?D1, ?E1, ?A1, ?R1, ?R2;
      cbn [count filter length is_AddrAdd is_AddrDel is_mutation
           is_release_call is_newly_added String.eqb Ascii.eqb Bool.eqb];
      rewrite ?Nat.add_0_r; repeat split; auto; try lia.
  - unfold step_signals. cbn [sigpc].
    destruct spc; proj; step_cases; proj; tids;
      cbn [count filter length is_AddrAdd is_AddrDel is_mutation];
      rewrite ?Nat.add_0_r; repeat split; auto.
  - unfold deliver. proj. step_cases; proj; repeat split; auto.
  - intros [= <-]. proj. repeat split; auto.
Qed.
Lemma mutations_accounted_run w script :
  mutations_accounted (run flags script (init w)).
Proof.
  apply run_invariant; [intros; eapply mutations_accounted_step; eauto|].
  repeat split; auto.
Qed.

Lemma netcall_not_After e : is_netcall e = true -> is_After e = false.
Proof. destruct e as [| |[]| | | |]; try discriminate; reflexivity. Qed.

Lemma netcall_not_Campaign e : is_netcall e = true -> is_Campaign e = false.
Proof. destruct e as [| |[]| | | |]; try discriminate; reflexivity. Qed.

Lemma netcall_not_leader_line e :
  is_netcall e = true -> is_leader_line e = false.
Proof. destruct e as [| |[]| | | |]; try discriminate; reflexivity. Qed.

Lemma netcall_not_ensure_call e :
  is_netcall e = true -> is_ensure_call e = false.
Proof. destruct e as [| |[]| | | |]; try discriminate; reflexivity. Qed.

Lemma loop_cadence_step l st st' :
  loop_cadence st -> step flags l st = Some st' -> loop_cadence st'.
Proof.
  unfold loop_cadence, step.
  destruct st as [w tr ex mpc lpc ds spc cd qc sc nt]. cbn [exited].
  destruct ex; [discriminate|].
  cbn [trace leaderpc mainpc]. cbv zeta.
  intros (He & Hb1 & Hb2 & Hb3 & Hadd & Hg).
  pose proof (ensureIP_adds w) as (_ & A2).
  pose proof (releaseIP_dels w) as (D1 & _).
  destruct (He eq_refl) as (H1 & H2). clear He.
  pose proof (ensureIP_count _ w netcall_not_After eq_refl eq_refl) as EA.
  pose proof (ensureIP_count _ w netcall_not_Campaign eq_refl eq_refl) as EC.
  pose proof (ensureIP_count _ w netcall_not_leader_line eq_refl eq_refl) as EL.
  pose proof (ensureIP_count _ w netcall_not_ensure_call eq_refl eq_refl) as EE.
  pose proof (releaseIP_count _ w netcall_not_After eq_refl eq_refl) as RA.
  pose proof (releaseIP_count _ w netcall_not_Campaign eq_refl eq_refl) as RC.
  pose proof (releaseIP_count _ w netcall_not_leader_line eq_refl eq_refl) as RL.
  pose proof (releaseIP_count _ w netcall_not_ensure_call eq_refl eq_refl) as RE.
  cbn in EA, EC, EL, EE, RA, RC, RL, RE.
  destruct l as [|c| |s|i].
  - unfold step_main. cbn [mainpc].
    destruct mpc; proj; step_cases; proj; tids;
      try (pose proof (Hg eq_refl); subst lpc);
      cbn [b2n at_campaign at_ensure] in *;
      (split; [intros; try discriminate; split; lia |]);
      repeat split; try lia; intros; try discriminate; auto.
  - unfold step_leader. cbn [leaderpc].
    destruct lpc; proj; step_cases; proj; tids;
      rewrite ?EA, ?EC, ?EL, ?EE, ?RA, ?RC, ?RL, ?RE;
      cbn [count filter length is_After is_Campaign is_leader_line
           is_AddrAdd is_ensure_call String.eqb Ascii.eqb Bool.eqb b2n at_campaign
           at_ensure] in *;
      (split; [intros; try discriminate; split; lia |]);
      repeat split; try lia; intros; try discriminate; auto; try wrong_pc.
  - unfold step_signals. cbn [sigpc].
    destruct spc; proj; step_cases; proj; tids;
      (split; [intros _; split; assumption | auto]).
  - unfold deliver. proj. step_cases; proj;
      (split; [intros; try discriminate; split; assumption | auto]).
  - intros [= <-]. proj. split; [intros _; split; assumption | auto].
Qed.

Lemma loop_cadence_run w script : loop_cadence (run flags script (init w)).
Proof.
  apply run_invariant; [intros; eapply loop_cadence_step; eauto|].
  cbv. repeat split; auto.
Qed.

(** *** Further properties of the process *)

(** With [-version] the first step of [main] prints [Version] and ends
    the process with code 0; along every schedule nothing else is ever
    written to the trace, [main] goes no further and neither goroutine
    is started. *)
Theorem version_prints_and_exits (w : World) :
  version flags = true ->
  run flags [RunMain] (init w) =
    mkState w [(main_g, Println Version)] (Some (ExitCode 0))
            M_flags L_idle [] S_idle false false None false /\
  forall script,
    let st := run flags script (init w) in
    (trace st = [] \/ trace st = [(main_g, Println Version)]) /\
    mainpc st = M_flags /\ leaderpc st = L_idle /\ sigpc st = S_idle /\
    forall code, exited st = Some (ExitCode code) -> code = 0%Z.
Proof.
  intros Hv. split.
  - cbn [run]. unfold next, step, step_main. cbn [init exited mainpc].
    rewrite Hv. reflexivity.
  - intros script. cbv zeta.
    assert (H : version_only (run flags script (init w))).
    { apply run_invariant.
      - intros; eapply version_only_step; eauto.
      - repeat split. left. auto. }
    destruct H as (H1 & H2 & H3 & _ & [(Ht & He) | (Ht & He)]).
    + repeat split; auto. intros code Hc.
      destruct He as [He | (s & He)]; rewrite He in Hc; discriminate.
    + repeat split; auto. intros code Hc. congruence.
Qed.

(** When [tlsInfo.ClientConfig()] fails, [main] logs the error and exits
    with code 1: no call to the coordination service was or will be
    made, and neither goroutine was started. *)
Theorem unreadable_credentials_exit_before_contact
  (w : World) (script : list Label) (err : error) :
  let st := run flags script (init w) in
  exited st = None -> mainpc st = M_tls ->
  TLSInfo_ClientConfig (tlsInfo flags) (world st) = inl err ->
  let st1 := next flags RunMain st in
  exited st1 = Some (ExitCode 1) /\
  trace st1 =
    (trace st ++ [(main_g, Ext (call_ClientConfig (tlsInfo flags)));
                  (main_g, Log FatalLevel (Error err));
                  (main_g, OsExit 1)])%list /\
  filter is_coordination (events (trace st1)) = [] /\
  leaderpc st1 = L_idle /\ sigpc st1 = S_idle /\
  forall script', run flags script' st1 = st1.
Proof.
  cbv zeta.
  pose proof (contact_order_run w script) as (Hg & _ & Hc & _).
  pose proof (coordinator_state_run w script) as (_ & Hb & _).
  destruct (run flags script (init w))
    as [w' tr ex mpc lpc ds spc cd qc sc nt].
  cbn [exited mainpc world leaderpc sigpc trace] in *.
  intros -> -> Hf.
  specialize (Hg eq_refl). specialize (Hb eq_refl). subst.
  specialize (Hc eq_refl eq_refl). cbn in Hc.
  unfold next, step, step_main. proj. rewrite Hf. proj.
  rewrite <- app_assoc. repeat split.
  - ftids. rewrite Hc. reflexivity.
  - intros script'. apply run_exited with (x := ExitCode 1). reflexivity.
Qed.

(** When [client.New] fails, [main] logs the error and exits with code
    1: [client.New] is the only call to the coordination service ever
    made, no signal handler was registered by that step and neither
    goroutine was started. *)
Theorem client_failure_starts_nothing
  (w : World) (script : list Label) (tlsConfig : TLSConfig) (err : error) :
  let st := run flags script (init w) in
  let endpoints := strings_Split (etcdaddress flags) "," in
  exited st = None -> mainpc st = M_client tlsConfig ->
  fst (client_New endpoints (5 * Second) tlsConfig (world st)) = inl err ->
  let st1 := next flags RunMain st in
  exited st1 = Some (ExitCode 1) /\
  filter is_coordination (events (trace st1)) =
    [Ext (call_client_New endpoints (5 * Second))] /\
  In (main_g, Log FatalLevel (Error err)) (trace st1) /\
  leaderpc st1 = L_idle /\ sigpc st1 = S_idle /\ notified st1 = notified st /\
  forall script', run flags script' st1 = st1.
Proof.
  cbv zeta.
  pose proof (contact_order_run w script) as (Hg & _ & Hc & _).
  pose proof (coordinator_state_run w script) as (_ & Hb & _).
  destruct (run flags script (init w))
    as [w' tr ex mpc lpc ds spc cd qc sc nt].
  cbn [exited mainpc world leaderpc sigpc trace notified] in *.
  intros -> -> Hf.
  specialize (Hg eq_refl). specialize (Hb eq_refl). subst.
  specialize (Hc eq_refl eq_refl). cbn in Hc.
  unfold next, step, step_main. proj. rewrite Hf. proj.
  repeat split.
  - ftids. rewrite Hc. reflexivity.
  - rewrite !in_app_iff. right. left. reflexivity.
  - intros script'. apply run_exited with (x := ExitCode 1). reflexivity.
Qed.

(** When [concurrency.NewSession] fails, the leadership goroutine logs
    the error and the process exits with code 1.  The calls to the
    coordination service were [client.New] and [NewSession] and nothing
    else; the deferred [exit <- 0] stays unrun, so nothing is ever sent
    to [main]. *)
Theorem session_failure_is_fatal
  (w : World) (script : list Label) (cli : Client) (c : Case) (err : error) :
  let st := run flags script (init w) in
  exited st = None -> leaderpc st = L_session cli ->
  fst (concurrency_NewSession cli (world st)) = inl err ->
  let st1 := next flags (RunLeader c) st in
  exited st1 = Some (ExitCode 1) /\
  filter is_coordination (events (trace st1)) =
    [Ext (call_client_New (strings_Split (etcdaddress flags) ",") (5 * Second));
     Ext call_NewSession] /\
  In (leader_g, Log FatalLevel (Error err)) (trace st1) /\
  defers st1 = [D_exit] /\
  count is_SendExit (events (trace st1)) = 0%nat /\
  forall script', run flags script' st1 = st1.
Proof.
  cbv zeta.
  pose proof (contact_order_run w script) as (Hg & _ & Hc & Hs).
  pose proof (leader_frames_run w script) as (Hf & _).
  destruct (run flags script (init w))
    as [w' tr ex mpc lpc ds spc cd qc sc nt].
  cbn [exited mainpc world leaderpc sigpc trace defers] in *.
  intros -> -> Hfail.
  specialize (Hc eq_refl eq_refl). specialize (Hs eq_refl).
  destruct Hf as (-> & _).
  assert (Hbc : before_client mpc = false).
  { destruct (before_client mpc) eqn:E; [|reflexivity].
    assert (Hgo : before_go mpc = true)
      by (destruct mpc; try discriminate E; reflexivity).
    discriminate (Hg Hgo). }
  rewrite Hbc in Hc.
  unfold next, step, step_leader. proj. rewrite Hfail. proj.
  repeat split.
  - ftids. rewrite Hc. reflexivity.
  - rewrite !in_app_iff. right. left. reflexivity.
  - etids. rewrite Hs. reflexivity.
  - intros script'. apply run_exited with (x := ExitCode 1). reflexivity.
Qed.

(** A process that ended with code 1 has run none of its release
    obligations: the leadership goroutine made no release call and no
    [AddrDel] call, every fresh addition it reported is still a pending
    obligation, and it never sent its completion code. *)
Theorem fatal_exit_runs_no_release (w : World) (script : list Label) :
  let st := run flags script (init w) in
  exited st = Some (ExitCode 1) ->
  released st = 0%nat /\
  pending_releases (defers st) = fresh st /\
  count is_AddrDel (by_tid leader_g (trace st)) = 0%nat /\
  count is_SendExit (events (trace st)) = 0%nat.
Proof.
  cbv zeta. intros He.
  pose proof (fatal_short_of_return_run w script) as (Hf & _).
  pose proof (obligations_balanced_run w script) as (Hb & Hr & _).
  pose proof (mutations_accounted_run w script) as (_ & _ & _ & Hl & _).
  pose proof (contact_order_run w script) as (_ & _ & _ & Hs).
  specialize (Hf He). specialize (Hr Hf). specialize (Hs Hf).
  rewrite Hr in *. split; [reflexivity|]. split; [lia|]. split; [lia|exact Hs].
Qed.


(** Who changes addresses.  The leadership goroutine never removes the
    address more often than it released, never releases more often than
    it reported a fresh addition, and every such report has its
    [AddrAdd] call.  [main] never adds an address and removes one at
    most once; the signal goroutine touches none. *)
Theorem address_changes_accounted (w : World) (script : list Label) :
  let st := run flags script (init w) in
  let by_leader := by_tid leader_g (trace st) in
  (count is_AddrDel by_leader <= released st)%nat /\
  (released st <= fresh st)%nat /\
  (fresh st <= count is_AddrAdd by_leader)%nat /\
  count is_AddrAdd (by_tid main_g (trace st)) = 0%nat /\
  (count is_AddrDel (by_tid main_g (trace st)) <= 1)%nat /\
  count is_mutation (by_tid signals_g (trace st)) = 0%nat.
Proof.
  cbv zeta.
  pose proof (mutations_accounted_run w script)
    as (Ha & Hs & Hd & Hl & Hf & _).
  pose proof (obligations_balanced_run w script) as (Hb & _).
  repeat split; auto. lia.
Qed.

(** The loop in numbers, for the leadership goroutine.  While the
    process runs, the timers that fired are the campaigns called, plus
    one while a campaign is still to be called or waited for; the
    campaigns won are the [ensureIP] calls, plus one while that call is
    still to be made.  So there is never an [ensureIP] without a
    campaign won before it, never a campaign without its five-second
    timer, and never more [AddrAdd] calls than [ensureIP] calls. *)
Theorem one_campaign_per_timer (w : World) (script : list Label) :
  let st := run flags script (init w) in
  let t := by_tid leader_g (trace st) in
  (exited st = None ->
     count is_After t =
       (count is_Campaign t + b2n (at_campaign (leaderpc st)))%nat /\
     count is_leader_line t =
       (count is_ensure_call t + b2n (at_ensure (leaderpc st)))%nat) /\
  (count is_ensure_call t <= count is_leader_line t)%nat /\
  (count is_leader_line t <= count is_Campaign t)%nat /\
  (count is_Campaign t <= count is_After t)%nat /\
  (count is_AddrAdd t <= count is_ensure_call t)%nat.
Proof.
  cbv zeta.
  pose proof (loop_cadence_run w script)
    as (He & Hb1 & Hb2 & Hb3 & Hadd & _).
  cbv zeta in He.
  split; [exact He|]. repeat split; auto; lia.
Qed.

(** A termination request served in order.  From any reachable state
    in which the leader waits in its [select], [main] at its receive and
    the signal goroutine at its own, let a signal arrive and run the
    signal goroutine, then the leader, then [main]: the leader leaves
    by [quit], runs every pending release, closes the session and sends
    0; [main] closes the client and exits with code 0; nothing is
    logged as fatal on the way. *)
Theorem graceful_shutdown
  (w : World) (script : list Label) (e : Election) (cli : Client)
  (s : Signal) :
  let st := run flags script (init w) in
  exited st = None -> leaderpc st = L_select e -> mainpc st = M_recv cli ->
  sigpc st = S_recv -> signalChan st = None ->
  let n := pending_releases (defers st) in
  let st' :=
    run flags
      ([Deliver s; RunSignals; RunSignals; RunSignals; RunLeader case_quit]
         ++ repeat (RunLeader case_quit) (n + 3)
         ++ [RunMain; RunMain; RunMain])%list st in
  exited st' = Some (ExitCode 0) /\
  leaderpc st' = L_done /\ defers st' = [] /\
  released st' = n /\
  count is_Fatal (events (trace st')) = count is_Fatal (events (trace st)) /\
  exists t,
    trace st' =
      (trace st ++
       [(signals_g, Log InfoLevel ("Received " ++ Signal_String s));
        (signals_g, Cancel); (signals_g, CloseQuit)] ++
       map (pair leader_g) t ++
       [(leader_g, Ext call_Session_Close); (leader_g, SendExit 0);
        (main_g, Ext call_Client_Close);
        (main_g, Log InfoLevel "Exiting with code: 0");
        (main_g, OsExit 0)])%list /\
    count is_release_call t = n.
Proof.
  cbv zeta.
  pose proof (leader_frames_run w script) as (Hf & _).
  pose proof (obligations_balanced_run w script) as (_ & Hr & _).
  pose proof (coordinator_state_run w script) as (_ & _ & Hn & _).
  destruct (run flags script (init w))
    as [w' tr ex mpc lpc ds spc cd qc sc nt].
  cbn [exited leaderpc mainpc sigpc signalChan defers trace notified] in *.
  intros -> -> -> -> ->.
  destruct Hf as ((n & ss & ->) & _).
  assert (nt = true) as -> by (apply Hn; discriminate).
  specialize (Hr eq_refl). unfold released in Hr. cbn [trace] in Hr.
  rewrite pending_releases_frames.
  rewrite run_app.
  match goal with
  | |- context [run flags [Deliver s; RunSignals; RunSignals; RunSignals;
                           RunLeader case_quit] ?x] =>
      assert (Hst1 :
        run flags [Deliver s; RunSignals; RunSignals; RunSignals;
                   RunLeader case_quit] x =
        mkState w'
          (tr ++ [(signals_g, Log InfoLevel ("Received " ++ Signal_String s));
                  (signals_g, Cancel); (signals_g, CloseQuit)])%list
          None (M_recv cli) L_return
          (repeat D_releaseIP n ++ [D_Session_Close ss; D_exit])%list
          S_done true true None true)
  end.
  { cbn [run]. unfold next, step, deliver, step_signals, step_leader. proj.
    cbv [set_leaderpc set_sigpc set_quit_closed set_ctx_done set_signalChan
         record world trace exited mainpc leaderpc defers sigpc ctx_done
         quit_closed signalChan notified map].
    rewrite <- !app_assoc. reflexivity. }
  rewrite Hst1. clear Hst1.
  rewrite run_app.
  set (st1 := mkState _ _ _ _ _ _ _ _ _ _ _).
  rewrite repeat_app, run_app.
  destruct (unwind_releases n st1 ss cli case_quit
              eq_refl eq_refl eq_refl eq_refl)
    as (U1 & U2 & U3 & U4 & U5 & tu & U6 & U7 & U8); cbv zeta in *.
  destruct (unwind_frame _ ss cli case_quit U1 U2 U3 U4)
    as (V1 & V2 & V3 & V4 & V5 & V6); cbv zeta in *.
  rewrite U5 in V5.
  set (st3 := run flags (repeat (RunLeader case_quit) 3) _) in *.
  destruct st3 as [w3 tr3 ex3 mpc3 lpc3 ds3 spc3 cd3 qc3 sc3 nt3].
  cbn [exited leaderpc mainpc defers trace] in V1, V2, V3, V4, V6.
  unfold released in V5. cbn [trace] in V5.
  subst ex3 lpc3 ds3 mpc3.
  cbn [run]. unfold next, step, step_main. proj.
  repeat split.
  - unfold released. proj. tids. cbn [count filter length is_release_call].
    rewrite V5. unfold st1. proj. tids. rewrite Hr.
    cbn. lia.
  - rewrite V6, U6. unfold st1. proj. etids.
    rewrite (subcount _ _ _ Fatal_is_control U8). cbn. lia.
  - exists tu. split; [|exact U7].
    rewrite V6, U6. unfold st1. proj. rewrite <- !app_assoc. reflexivity.
Qed.

(** *** The endpoint list *)








End Process.

(** * The program on the simulated host *)

(** C3 on the host: a second [ensureIP] right after a first one that
    added the address is a no-op. *)
Lemma ensureIP_idempotent_witness :
  let w := post (ensureIP default_flags (Sim.host0 [])) in
  val (ensureIP default_flags (Sim.host0 [])) = (true, None) /\
  val (ensureIP default_flags w) = (false, None) /\
  post (ensureIP default_flags w) = w.
Proof.
  cbv zeta. split; [reflexivity|].
  refine (let H := ensureIP_idempotent default_flags
                     (post (ensureIP default_flags (Sim.host0 [])))
                     Sim.the_vip 2%nat _ in
          conj (proj1 H) (proj1 (proj2 H))).
  eexists. split; [repeat split; vm_compute; reflexivity|].
  exists Sim.the_vip. split; [cbn; auto | reflexivity].
Defined.

(** C4 on the host: the first [releaseIP] removes the address, the
    second finds nothing to remove. *)
Lemma releaseIP_idempotent_witness :
  let w := post (releaseIP default_flags (Sim.host1 [])) in
  (val (releaseIP default_flags (Sim.host1 [])) = None /\
   post (releaseIP default_flags (Sim.host1 [])) = Sim.host0 []) /\
  (val (releaseIP default_flags w) = None /\
   post (releaseIP default_flags w) = w).
Proof.
  cbv zeta. split.
  - refine (let H := proj2 (releaseIP_idempotent default_flags
                              (Sim.host1 []) Sim.the_vip 2%nat) _ in
            conj (proj1 H) (proj1 (proj2 H))).
    eexists. split; [repeat split; vm_compute; reflexivity|].
    exists Sim.the_vip. split; [cbn; auto | reflexivity].
  - refine (let H := proj1 (releaseIP_idempotent default_flags
                              (post (releaseIP default_flags (Sim.host1 [])))
                              Sim.the_vip 2%nat) _ in
            conj (proj1 H) (proj1 (proj2 H))).
    eexists. split; [repeat split; vm_compute; reflexivity|].
    intros (a & Hin & Ha). cbn in Hin.
    destruct Hin as [<- | []]. discriminate Ha.
Defined.

(** C5 on the host: the address is reported present exactly on the host
    that has it. *)
Lemma hasIP_observes_witness :
  val (hasIP default_flags (Sim.host1 [])) = inr (true, Sim.the_vip, 2%nat) /\
  exists addrs,
    resolves default_flags (Sim.host1 []) Sim.the_vip 2%nat addrs /\
    (true = true <-> member_of Sim.the_vip addrs).
Proof.
  split; [reflexivity|].
  exact (proj2 (hasIP_observes default_flags (Sim.host1 []))
           true Sim.the_vip 2%nat eq_refl).
Defined.

(** C6 on a host that cannot send ARP frames: five announcements are
    attempted all the same and [ensureIP] succeeds. *)
Lemma ensureIP_announces_witness :
  fst (Sim.GratuitousArp [192; 168; 0; 254]%nat "eth0" Sim.host_mute)
    = Some (Err "network is down") /\
  val (ensureIP default_flags Sim.host_mute) = (true, None) /\
  count is_arp (emitted (ensureIP default_flags Sim.host_mute)) = 5%nat.
Proof.
  split; [reflexivity|].
  refine (let H := proj1 (ensureIP_announces default_flags Sim.host_mute
                            Sim.the_vip 2%nat) _ _ in
          conj (proj1 H) (proj2 (proj2 H))).
  - eexists. split; [repeat split; vm_compute; reflexivity|].
    intros (a & Hin & Ha). cbn in Hin.
    destruct Hin as [<- | []]. discriminate Ha.
  - reflexivity.
Defined.

(** C1, as stated, fails on the host.  The process leads and adds the
    address; an administrator removes it; the next confirmation adds it
    again.  Two release obligations are then pending while the address
    is on the interface, and the shutdown that follows makes two release
    calls. *)
Lemma release_obligations_stack :
  let st := run default_flags Sim.reacquire (init (Sim.host0 [None; None])) in
  exited st = None /\
  pending_releases (defers st) = 2%nat /\
  ~ (pending_releases (defers st) <= 1)%nat /\
  val (hasIP default_flags (world st)) = inr (true, Sim.the_vip, 2%nat) /\
  let st' := run default_flags (Sim.shutdown ++ Sim.unwind 5)%list st in
  leaderpc st' = L_done /\ released st' = 2%nat.
Proof.
  vm_compute. repeat split. intros H.
  apply le_S_n in H. inversion H.
Qed.

Lemma release_obligations_follow_fresh_additions_witness :
  let st := run default_flags Sim.reacquire (init (Sim.host0 [None; None])) in
  (pending_releases (defers st) + released st = fresh st)%nat /\
  fresh st = 2%nat.
Proof.
  split; [|vm_compute; reflexivity].
  exact (proj1 (release_obligations_follow_fresh_additions default_flags
                  (Sim.host0 [None; None]) Sim.reacquire)).
Defined.

(** C2, as stated, fails on the host.  With the VIP "not-a-cidr" the
    release at startup does not end the process; it creates the client,
    opens a session and campaigns, and only then exits with code 1. *)
Lemma invalid_vip_contacts_coordination_service :
  let st :=
    run Sim.bad_flags (Sim.boot ++ Sim.round)%list (init (Sim.host0 [None])) in
  netlink_ParseAddr (vip Sim.bad_flags)
    = inl (Err "invalid CIDR address: not-a-cidr") /\
  exited (run Sim.bad_flags [RunMain; RunMain] (init (Sim.host0 [None])))
    = None /\
  filter is_coordination (events (trace st)) =
    [Ext (call_client_New ["https://127.0.0.1:2379"] 5000);
     Ext call_NewSession; Ext (call_Campaign "hostname")] /\
  exited st = Some (ExitCode 1).
Proof. vm_compute. repeat split. Qed.

Lemma invalid_vip_reported_after_campaign_witness :
  let st :=
    run Sim.bad_flags (Sim.boot ++ [RunLeader case_After; RunLeader case_After])%list
        (init (Sim.host0 [None])) in
  exited (next Sim.bad_flags (RunLeader case_After) st) = Some (ExitCode 1).
Proof.
  refine (proj1 (proj2 (invalid_vip_reported_after_campaign Sim.bad_flags
                          (Sim.host0 [None])
                          (Err "invalid CIDR address: not-a-cidr") _ _)
                   (Sim.boot ++ [RunLeader case_After; RunLeader case_After])%list
                   "/govip/" case_After _ _));
    vm_compute; reflexivity.
Defined.

(** C7 on the host: a campaign that fails ends the process with code 1;
    a campaign cancelled by SIGTERM lets the leader release the address
    and complete. *)
Lemma campaign_cancelled_or_fatal_witness :
  (let st := run default_flags Sim.to_campaign
               (init (Sim.host0 [Some (Err "etcdserver: request timed out")])) in
   exited (next default_flags (RunLeader case_After) st) = Some (ExitCode 1)) /\
  (let st := run default_flags Sim.cancelled_in_campaign
               (init (Sim.host0 [None])) in
   let st1 := next default_flags (RunLeader case_After) st in
   let st2 := run default_flags
                ([RunMain; RunMain] ++ repeat (RunLeader case_After) (1 + 3))%list
                st1 in
   leaderpc st2 = L_done /\ released st2 = 1%nat).
Proof.
  split.
  - cbv zeta.
    refine (proj1 (proj2 (campaign_cancelled_or_fatal default_flags
                            (Sim.host0 [Some (Err "etcdserver: request timed out")])
                            Sim.to_campaign "/govip/" case_After
                            (Err "etcdserver: request timed out")
                            (Sim.with_campaigns [] (world
                               (run default_flags Sim.to_campaign
                                  (init (Sim.host0
                                     [Some (Err "etcdserver: request timed out")])))))
                            _ _ _) _));
      try (vm_compute; reflexivity). discriminate.
  - cbv zeta.
    refine (let H := proj2 (proj2 (proj2 (proj2
              (proj1 (campaign_cancelled_or_fatal default_flags
                        (Sim.host0 [None]) Sim.cancelled_in_campaign
                        "/govip/" case_After context_Canceled
                        (world (run default_flags Sim.cancelled_in_campaign
                                  (init (Sim.host0 [None]))))
                        _ _ _) eq_refl)))) in
            conj (proj1 (proj2 H)) (proj1 (proj2 (proj2 (proj2 H)))));
      vm_compute; reflexivity.
Defined.

(** C8 on the host: SIGINT, then a second signal once the first was
    taken; the coordinator has fired once, the leader completes, and
    [main] exits with code 0 after the completion was sent. *)
Lemma shutdown_coordinator_acts_once_witness :
  let script :=
    (Sim.boot ++ Sim.round ++ Sim.shutdown ++ [Deliver SIGTERM]
       ++ Sim.unwind 4 ++ Sim.leave)%list in
  let st := run default_flags script (init (Sim.host0 [None])) in
  exited st = Some (ExitCode 0) /\
  (count is_Cancel (events (trace st)) = 1%nat /\
   count is_CloseQuit (events (trace st)) = 1%nat /\
   ctx_done st = true /\ quit_closed st = true) /\
  exists t, trace st = (t ++ [(main_g, OsExit 0)])%list /\
            In (leader_g, SendExit 0) t.
Proof.
  cbv zeta. split; [vm_compute; reflexivity|].
  pose proof (shutdown_coordinator_acts_once default_flags (Sim.host0 [None])
                (Sim.boot ++ Sim.round ++ Sim.shutdown ++ [Deliver SIGTERM]
                   ++ Sim.unwind 4 ++ Sim.leave)%list) as H.
  cbv zeta in H.
  destruct H as (_ & _ & Hdone & _ & _ & _ & Hexit & _).
  split.
  - apply Hdone. vm_compute. reflexivity.
  - apply Hexit; vm_compute; reflexivity.
Defined.

(** C9 on a host where the release at startup fails: [main] goes on to
    the TLS configuration all the same. *)
Lemma startup_release_once_outcome_discarded_witness :
  val (releaseIP default_flags Sim.host_unprivileged)
    = Some (Err "operation not permitted") /\
  mainpc (run default_flags [RunMain; RunMain] (init Sim.host_unprivileged))
    = M_tls /\
  exited (run default_flags [RunMain; RunMain] (init Sim.host_unprivileged))
    = None.
Proof.
  split; [vm_compute; reflexivity|].
  rewrite (proj1 (startup_release_once_outcome_discarded (X := Sim.host)
                    default_flags Sim.host_unprivileged eq_refl)).
  split; reflexivity.
Defined.

(** ** Further runs on the simulated host *)

(** Without the privilege to change addresses, [releaseIP] returns the
    error of its [AddrDel] call. *)
Lemma releaseIP_error_origin_witness :
  val (releaseIP default_flags Sim.host_unprivileged)
    = Some (Err "operation not permitted") /\
  ~ In (Log InfoLevel "IP address released")
       (emitted (releaseIP default_flags Sim.host_unprivileged)).
Proof.
  split; [vm_compute; reflexivity|].
  refine (proj1 (releaseIP_error_origin (X := Sim.host) default_flags
                   Sim.host_unprivileged (Err "operation not permitted") _)).
  vm_compute. reflexivity.
Defined.

(** Interface "vif0" is not on the host: [ensureIP] returns the error of
    the lookup and announces nothing. *)
Lemma ensureIP_error_origin_witness :
  val (ensureIP Sim.vif0_flags (Sim.host0 []))
    = (false, Some (Err "Link not found")) /\
  count is_arp (emitted (ensureIP Sim.vif0_flags (Sim.host0 []))) = 0%nat.
Proof.
  split; [vm_compute; reflexivity|].
  refine (proj1 (proj2 (ensureIP_error_origin (X := Sim.host) Sim.vif0_flags
                          (Sim.host0 []) (Err "Link not found") _))).
  vm_compute. reflexivity.
Defined.

Lemma hasIP_order_insensitive_witness :
  val (hasIP default_flags (Sim.host1 [])) =
  val (hasIP default_flags Sim.host1_reversed).
Proof.
  refine (hasIP_order_insensitive (X := Sim.host) default_flags
            (Sim.host1 []) Sim.host1_reversed Sim.the_vip 2%nat _ _ _ _ _).
  - repeat split; vm_compute; reflexivity.
  - repeat split; vm_compute; reflexivity.
  - intros a. cbn. tauto.
Defined.

Lemma version_prints_and_exits_witness :
  exited (run Sim.version_flags [RunMain] (init (Sim.host0 [])))
    = Some (ExitCode 0) /\
  trace (run Sim.version_flags (Sim.boot ++ Sim.round)%list (init (Sim.host0 [None])))
    = [(main_g, Println "Not defined")].
Proof.
  pose proof (version_prints_and_exits (X := Sim.host) Sim.version_flags
                (Sim.host0 []) eq_refl) as (H & _).
  rewrite H. split; [reflexivity|]. vm_compute. reflexivity.
Defined.

Lemma unreadable_credentials_exit_before_contact_witness :
  let st := run default_flags [RunMain; RunMain; RunMain] (init Sim.host_no_certs) in
  exited st = Some (ExitCode 1) /\
  filter is_coordination (events (trace st)) = [].
Proof.
  cbv zeta.
  refine (let H := unreadable_credentials_exit_before_contact (X := Sim.host)
                     default_flags Sim.host_no_certs [RunMain; RunMain]
                     (Err "open server.crt: no such file or directory") _ _ _ in
          conj (proj1 H) (proj1 (proj2 (proj2 H))));
    vm_compute; reflexivity.
Defined.

Lemma client_failure_starts_nothing_witness :
  let st :=
    run default_flags [RunMain; RunMain; RunMain; RunMain] (init Sim.host_no_etcd) in
  exited st = Some (ExitCode 1) /\ leaderpc st = L_idle /\ sigpc st = S_idle.
Proof.
  cbv zeta.
  refine (let H := client_failure_starts_nothing (X := Sim.host)
                     default_flags Sim.host_no_etcd [RunMain; RunMain; RunMain]
                     tt (Err "context deadline exceeded") _ _ _ in
          conj (proj1 H)
               (conj (proj1 (proj2 (proj2 (proj2 H))))
                     (proj1 (proj2 (proj2 (proj2 (proj2 H)))))));
    vm_compute; reflexivity.
Defined.

Lemma session_failure_is_fatal_witness :
  let st1 :=
    next (X := Sim.host_without_sessions) default_flags (RunLeader case_After)
      (run (X := Sim.host_without_sessions) default_flags Sim.to_session
         (init (X := Sim.host_without_sessions) (Sim.host0 []))) in
  exited st1 = Some (ExitCode 1) /\ defers st1 = [D_exit].
Proof.
  cbv zeta.
  refine (let H := session_failure_is_fatal (X := Sim.host_without_sessions)
                     default_flags (Sim.host0 []) Sim.to_session tt case_After
                     (Err "context deadline exceeded") _ _ _ in
          conj (proj1 H) (proj1 (proj2 (proj2 (proj2 H)))));
    vm_compute; reflexivity.
Defined.

(** The leader added the address, then a campaign failed: the process is
    gone with code 1, the obligation was never run, and the address is
    still on the interface. *)
Lemma fatal_exit_runs_no_release_witness :
  let st :=
    run default_flags Sim.lead_then_fail
        (init (Sim.host0 [None; Some (Err "etcdserver: request timed out")])) in
  (released st = 0%nat /\ pending_releases (defers st) = fresh st) /\
  fresh st = 1%nat /\
  val (hasIP default_flags (world st)) = inr (true, Sim.the_vip, 2%nat).
Proof.
  cbv zeta. split; [|vm_compute; split; reflexivity].
  refine (let H := fatal_exit_runs_no_release (X := Sim.host) default_flags
                     (Sim.host0 [None; Some (Err "etcdserver: request timed out")])
                     Sim.lead_then_fail _ in
          conj (proj1 H) (proj1 (proj2 H))).
  vm_compute. reflexivity.
Defined.


Lemma graceful_shutdown_witness :
  let st := run default_flags (Sim.boot ++ Sim.round)%list (init (Sim.host0 [None])) in
  let st' :=
    run default_flags
      ([Deliver SIGINT; RunSignals; RunSignals; RunSignals; RunLeader case_quit]
         ++ repeat (RunLeader case_quit) (1 + 3)
         ++ [RunMain; RunMain; RunMain])%list st in
  exited st' = Some (ExitCode 0) /\ released st' = 1%nat.
Proof.
  cbv zeta.
  refine (let H := graceful_shutdown (X := Sim.host) default_flags
                     (Sim.host0 [None]) (Sim.boot ++ Sim.round)%list
                     "/govip/" tt SIGINT _ _ _ _ _ in
          conj (proj1 H) (proj1 (proj2 (proj2 (proj2 H)))));
    vm_compute; reflexivity.
Defined.
